(** * GraphQL client: retrying executor, response discriminator and
      multipart incremental-delivery parser

    A shallow embedding of
    [packages/graphql-client/src/graphql-client/graphql-client.ts]
    together with the helpers it imports, and the properties of the
    natural-language specification stated over that embedding.

    Conventions of the embedding:
    - a JavaScript value is a [value]; [VUndefined] is what reading a
      missing property gives;
    - text that is searched, sliced and split (the multipart body) is a
      [text], a list of characters; messages and header values are
      [string]s;
    - an [async] function is a function of the world ([World]) returning an
      [Outcome] (a returned value or a thrown error, i.e. a rejected
      promise) and the new world; the world records every call made to the
      transport adapter, every log event and every sleep;
    - an async generator that is consumed to its end is the list of the
      values it yields, followed by the error it throws, if any. *)

From Stdlib Require Import ZArith String Ascii List Bool Lia DecimalString.
From Equations Require Import Equations.
From Equations.Prop Require Import Logic.
Import ListNotations.

Set Implicit Arguments.
Set Warnings "-register-all".
Open Scope string_scope.
Open Scope list_scope.
Open Scope Z_scope.

(** ** JavaScript strings as character lists *)

Module JS.

Definition text := list ascii.

Definition t (s : string) : text := list_ascii_of_string s.

Fixpoint text_eqb (a b : text) : bool :=
  match a, b with
  | [], [] => true
  | c :: a', d :: b' => Ascii.eqb c d && text_eqb a' b'
  | _, _ => false
  end.

(** [s.startsWith(p)]. *)
Fixpoint startsWith (s p : text) {struct p} : bool :=
  match p, s with
  | [], _ => true
  | c :: p', d :: s' => Ascii.eqb c d && startsWith s' p'
  | _ :: _, [] => false
  end.

(** First and last position at which [sep] occurs in [s]. *)
Fixpoint find_sub (s sep : text) : option nat :=
  if startsWith s sep then Some 0%nat
  else match s with
       | [] => None
       | _ :: s' => option_map S (find_sub s' sep)
       end.

Fixpoint find_last (s sep : text) : option nat :=
  match s with
  | [] => if startsWith [] sep then Some 0%nat else None
  | _ :: s' =>
      match find_last s' sep with
      | Some i => Some (S i)
      | None => if startsWith s sep then Some 0%nat else None
      end
  end.

Definition index_result (r : option nat) : Z :=
  match r with
  | Some i => Z.of_nat i
  | None => -1
  end.

(** [s.indexOf(sep)] and [s.lastIndexOf(sep)]: [-1] when there is none. *)
Definition indexOf (s sep : text) : Z := index_result (find_sub s sep).
Definition lastIndexOf (s sep : text) : Z := index_result (find_last s sep).

(** An index argument of [slice]: negative counts from the end, and the
    result is clamped to the string. *)
Definition clampIndex (len : nat) (i : Z) : nat :=
  if i <? 0 then Z.to_nat (Z.max (Z.of_nat len + i) 0)
  else Nat.min (Z.to_nat i) len.

(** [s.slice(from, to)]; [to = None] is the one-argument form. *)
Definition slice (s : text) (from : Z) (to : option Z) : text :=
  let len := length s in
  let a := clampIndex len from in
  let b := match to with
           | Some e => clampIndex len e
           | None => len
           end in
  firstn (b - a) (skipn a s).

(** White space and line terminators as [trim] and [\s] see them, among
    the characters below 256: space, tab, line feed, vertical tab, form
    feed, carriage return and the no-break space (160). *)
Definition isSpace (c : ascii) : bool :=
  let n := nat_of_ascii c in
  ((n =? 32) || ((9 <=? n) && (n <=? 13)) || (n =? 160))%nat.

Fixpoint trimStart (s : text) : text :=
  match s with
  | [] => []
  | c :: s' => if isSpace c then trimStart s' else s
  end.

Definition trimEnd (s : text) : text := rev (trimStart (rev s)).

Definition trim (s : text) : text := trimEnd (trimStart s).

(** [s.includes(sub)] on strings. *)
Definition includes (s sub : string) : bool :=
  match find_sub (t s) (t sub) with
  | Some _ => true
  | None => false
  end.

(** A prefix that is found is there: needed for [split] to terminate. *)
Lemma startsWith_app (s p : text) :
  startsWith s p = true -> s = p ++ skipn (length p) s.
Proof.
  revert s; induction p as [|c p IH]; intros [|d s]; simpl; try easy.
  intros H; apply andb_prop in H as [Hc Hp].
  apply Ascii.eqb_eq in Hc; subst d.
  f_equal; now apply IH.
Qed.

Lemma startsWith_length (s p : text) :
  startsWith s p = true -> (length p <= length s)%nat.
Proof.
  intros H. apply startsWith_app in H.
  apply (f_equal (@length ascii)) in H. rewrite length_app in H. lia.
Qed.

Lemma find_sub_bound (s sep : text) (i : nat) :
  find_sub s sep = Some i -> (i + length sep <= length s)%nat.
Proof.
  revert i; induction s as [|d s IH]; intros i; simpl.
  - destruct (startsWith [] sep) eqn:E; [|discriminate].
    intros [= <-]. now apply startsWith_length in E.
  - destruct (startsWith (d :: s) sep) eqn:E.
    + intros [= <-]. now apply startsWith_length in E.
    + destruct (find_sub s sep) as [j|] eqn:F; simpl; [|discriminate].
      intros [= <-]. specialize (IH j eq_refl). simpl. lia.
Qed.

(** [s.split(sep)] for a separator [c :: sep'] that is not empty: cut at
    each occurrence, scanning from the left. *)
Equations? split_loop (c : ascii) (sep' : text) (s : text) : list text
  by wf (length s) lt :=
  split_loop c sep' s with inspect (find_sub s (c :: sep')) := {
    | exist _ (Some i) _ =>
        firstn i s :: split_loop c sep' (skipn (i + length (c :: sep')) s)
    | exist _ None _ => [s] }.
Proof.
  apply find_sub_bound in e. simpl in e.
  rewrite length_skipn. simpl. lia.
Qed.

(** [s.split(sep)]; an empty separator cuts between all characters. *)
Definition split (s sep : text) : list text :=
  match sep with
  | [] => map (fun c => [c]) s
  | c :: sep' => split_loop c sep' s
  end.

End JS.

(** ** JavaScript values *)

Module Value.

(** What [JSON.parse] builds, and [undefined]. A number is an integer
    here: no property below depends on a fractional part. An object keeps
    its properties in insertion order. *)
Inductive value : Type :=
| VUndefined
| VNull
| VBool (b : bool)
| VNum (n : Z)
| VStr (s : string)
| VArr (items : list value)
| VObj (fields : list (string * value)).

(** The condition of [if (v)], [v && ...], [v || ...] and [!v]. *)
Definition truthy (v : value) : bool :=
  match v with
  | VUndefined | VNull => false
  | VBool b => b
  | VNum n => negb (n =? 0)
  | VStr s => negb (String.eqb s "")
  | VArr _ | VObj _ => true
  end.

Fixpoint lookup (k : string) (fields : list (string * value)) : option value :=
  match fields with
  | [] => None
  | (k', v) :: rest => if String.eqb k k' then Some v else lookup k rest
  end.

(** [v.k] and [v[k]] for a [v] that is neither [null] nor [undefined]. *)
Definition get (v : value) (k : string) : value :=
  match v with
  | VObj fields =>
      match lookup k fields with
      | Some x => x
      | None => VUndefined
      end
  | _ => VUndefined
  end.

(** [v[i]] on an array; a hole reads as [undefined]. *)
Definition at_index (v : value) (i : nat) : value :=
  match v with
  | VArr items => nth i items VUndefined
  | _ => VUndefined
  end.

(** [obj[k] = x]: replaces in place, or adds at the end. *)
Fixpoint setField (k : string) (x : value) (fields : list (string * value))
  : list (string * value) :=
  match fields with
  | [] => [(k, x)]
  | (k', v) :: rest =>
      if String.eqb k k' then (k', x) :: rest else (k', v) :: setField k x rest
  end.

Definition isHole (v : value) : bool :=
  match v with
  | VUndefined => true
  | _ => false
  end.

(** [Object.keys(v).length] for a [v] that is neither [null] nor
    [undefined]. *)
Definition keyCount (v : value) : nat :=
  match v with
  | VObj fields => length fields
  | VArr items => length (filter (fun x => negb (isHole x)) items)
  | VStr s => String.length s
  | _ => 0%nat
  end.

(** [a ?? b]. *)
Definition nullish (a b : value) : value :=
  match a with
  | VUndefined | VNull => b
  | _ => a
  end.

(** *** Conversion to a number, for [v > 0] *)

Definition isDigit (c : ascii) : bool :=
  let n := nat_of_ascii c in ((48 <=? n) && (n <=? 57))%nat.

(** The value of a digit of a literal in base 16, 8 or 2. *)
Definition digitIn (base : nat) (c : ascii) : option nat :=
  let n := nat_of_ascii c in
  let d := if ((48 <=? n) && (n <=? 57))%nat then Some (n - 48)%nat
           else if ((97 <=? n) && (n <=? 102))%nat then Some (n - 87)%nat
           else if ((65 <=? n) && (n <=? 70))%nat then Some (n - 55)%nat
           else None in
  match d with
  | Some k => if (k <? base)%nat then Some k else None
  | None => None
  end.

(** The decimal digits a text begins with, and what follows them. *)
Fixpoint takeDigits (s : JS.text) : JS.text * JS.text :=
  match s with
  | [] => ([], [])
  | c :: s' =>
      if isDigit c
      then let (digits, rest) := takeDigits s' in (c :: digits, rest)
      else ([], s)
  end.

Definition digitsValue (digits : JS.text) : Z :=
  fold_left (fun acc c => 10 * acc + (Z.of_nat (nat_of_ascii c) - 48))
    digits 0.

(** [ExponentPart], which is optional: [e] or [E], a sign or none, and at
    least one digit. [None] when the text is something else. *)
Definition exponentOf (s : JS.text) : option Z :=
  match s with
  | [] => Some 0
  | c :: s' =>
      if Ascii.eqb c "e" || Ascii.eqb c "E"
      then
        let '(negative, s'') :=
          match s' with
          | "+"%char :: r => (false, r)
          | "-"%char :: r => (true, r)
          | _ => (false, s')
          end in
        match takeDigits s'' with
        | ((_ :: _) as digits, []) =>
            Some (if negative then - digitsValue digits
                  else digitsValue digits)
        | _ => None
        end
      else None
  end.

(** Whether the double nearest to [mantissa * 10 ^ exponent] is above 0:
    a value of at most [2 ^ -1075] rounds to 0. *)
Definition aboveZero (mantissa exponent : Z) : bool :=
  (0 <? mantissa)
  && (if 0 <=? exponent then true
      else 10 ^ (- exponent) <? mantissa * 2 ^ 1075).

(** [StrUnsignedDecimalLiteral]: whether it is one whose value is above
    0. The forms are [Infinity], digits with an optional fraction, and a
    fraction alone, the last two with an optional exponent. *)
Definition unsignedAboveZero (s : JS.text) : bool :=
  if JS.text_eqb s (JS.t "Infinity") then true
  else
    let (int, r) := takeDigits s in
    let (frac, r') :=
      match r with
      | "."%char :: r1 => takeDigits r1
      | _ => ([], r)
      end in
    match int ++ frac with
    | [] => false
    | _ :: _ =>
        match exponentOf r' with
        | Some e =>
            aboveZero (digitsValue (int ++ frac)) (e - Z.of_nat (length frac))
        | None => false
        end
    end.

(** [NonDecimalIntegerLiteral]: [0x], [0o] or [0b], in either case, and
    at least one digit of the base. [None] when the text does not begin
    as one. *)
Definition radixAboveZero (s : JS.text) : option bool :=
  match s with
  | "0"%char :: c :: digits =>
      let base :=
        if Ascii.eqb c "x" || Ascii.eqb c "X" then Some 16%nat
        else if Ascii.eqb c "o" || Ascii.eqb c "O" then Some 8%nat
        else if Ascii.eqb c "b" || Ascii.eqb c "B" then Some 2%nat
        else None in
      match base with
      | Some b =>
          Some (negb (Nat.eqb (length digits) 0)
                && forallb (fun d => match digitIn b d with
                                     | Some _ => true
                                     | None => false
                                     end) digits
                && existsb (fun d => match digitIn b d with
                                     | Some k => negb (Nat.eqb k 0)
                                     | None => false
                                     end) digits)
      | None => None
      end
  | _ => None
  end.

(** [Number(s) > 0] for a string: white space around the literal is
    skipped; the empty string is 0; a text that is no numeric literal is
    [NaN], which is not above 0. *)
Definition stringAboveZero (s : string) : bool :=
  let s := JS.trim (JS.t s) in
  match radixAboveZero s with
  | Some b => b
  | None =>
      match s with
      | "-"%char :: _ => false
      | "+"%char :: r => unsignedAboveZero r
      | _ => unsignedAboveZero s
      end
  end.

(** [Number.prototype.toString] for an integer. *)
Definition numberToString (n : Z) : string :=
  NilZero.string_of_int (Z.to_int n).

(** [String(v)], or [None] when the conversion raises a [TypeError]. An
    array is joined with commas, [null] and [undefined] counting as empty
    among its elements; an object that [JSON.parse] built has no callable
    property, so that one with a [toString] of its own cannot be
    converted, and another is [[object Object]]. *)
Fixpoint toStringOf (v : value) : option string :=
  match v with
  | VUndefined => Some "undefined"
  | VNull => Some "null"
  | VBool b => Some (if b then "true" else "false")
  | VNum n => Some (numberToString n)
  | VStr s => Some s
  | VArr items =>
      (fix join (l : list value) : option string :=
         match l with
         | [] => Some EmptyString
         | x :: rest =>
             match (match x with
                    | VUndefined | VNull => Some EmptyString
                    | _ => toStringOf x
                    end) with
             | None => None
             | Some first =>
                 match rest with
                 | [] => Some first
                 | _ :: _ =>
                     match join rest with
                     | Some others => Some (first ++ "," ++ others)%string
                     | None => None
                     end
                 end
             end
         end) items
  | VObj fields =>
      match lookup "toString" fields with
      | Some _ => None
      | None => Some "[object Object]"
      end
  end.

(** [v > 0], or [None] when the conversion of [v] raises a [TypeError]:
    [undefined] is [NaN], [null] is 0, [true] is 1; a string is read as a
    number; an array or an object is first converted to a string. *)
Definition aboveZeroOf (v : value) : option bool :=
  match v with
  | VUndefined | VNull => Some false
  | VBool b => Some b
  | VNum n => Some (0 <? n)
  | VStr s => Some (stringAboveZero s)
  | VArr _ | VObj _ => option_map stringAboveZero (toStringOf v)
  end.

End Value.

(** ** constants.ts *)

Module Constants.

Definition dquote : string := String (ascii_of_nat 34) "".
Definition CR : ascii := ascii_of_nat 13.
Definition LF : ascii := ascii_of_nat 10.

(** Modelled from the spec: the constants of [constants.ts], which is not
    among the sources. The label and the messages are the ones the test
    suite matches literally; the retry range and the retried status codes
    are those of sections 3 and 4.1. *)
Definition CLIENT : string := "GraphQL Client".
Definition MIN_RETRIES : Z := 0.
Definition MAX_RETRIES : Z := 3.
Definition RETRY_WAIT_TIME : Z := 1000.
Definition RETRIABLE_STATUS_CODES : list Z := [429; 503].
Definition GQL_API_ERROR : string :=
  "An error occurred while fetching from the API. Review 'graphQLErrors' for details.".
Definition UNEXPECTED_CONTENT_TYPE_ERROR : string :=
  "Response returned unexpected Content-Type:".
Definition NO_DATA_OR_ERRORS_ERROR : string :=
  "An unknown error has occurred. The API did not return a data object or any errors in its response.".
Definition CONTENT_TYPES_json : string := "application/json".
Definition CONTENT_TYPES_multipart : string := "multipart/mixed".
Definition CONTENT_TYPES : list string :=
  [CONTENT_TYPES_json; CONTENT_TYPES_multipart].
Definition HEADER_SEPARATOR : JS.text := [CR; LF; CR; LF].

Definition isWordChar (c : ascii) : bool :=
  let n := nat_of_ascii c in
  (((48 <=? n) && (n <=? 57)) || ((65 <=? n) && (n <=? 90))
   || ((97 <=? n) && (n <=? 122)) || (n =? 95))%nat.

Definition lower (c : ascii) : ascii :=
  let n := nat_of_ascii c in
  if ((65 <=? n) && (n <=? 90))%nat then ascii_of_nat (n + 32) else c.

Fixpoint startsWith_nocase (s p : JS.text) {struct p} : bool :=
  match p, s with
  | [], _ => true
  | c :: p', d :: s' => Ascii.eqb (lower c) (lower d) && startsWith_nocase s' p'
  | _ :: _, [] => false
  end.

(** [defer\b] at the head of [s], in any letter case. *)
Definition deferWord (s : JS.text) : bool :=
  startsWith_nocase s (JS.t "defer")
  && match skipn 5 s with
     | [] => true
     | c :: _ => negb (isWordChar c)
     end.

(** [\s*defer\b] at the head of [s]. *)
Fixpoint afterAt (s : JS.text) : bool :=
  deferWord s
  || match s with
     | c :: s' => JS.isSpace c && afterAt s'
     | [] => false
     end.

Fixpoint deferSearch (s : JS.text) : bool :=
  match s with
  | [] => false
  | c :: s' => (Ascii.eqb c "@" && afterAt s') || deferSearch s'
  end.

(** Modelled from the spec: [DEFER_OPERATION_REGEX.test(operation)] for
    the regular expression [/@\s*defer\b/i] of section 4.2.2. *)
Definition DEFER_OPERATION_REGEX_test (operation : string) : bool :=
  deferSearch (JS.t operation).

End Constants.

(** ** types.ts and the values exchanged with the host *)

Module Types.
Import JS Value.

Inductive HeaderValue : Type :=
| HString (s : string)
| HList (l : list string).

Definition Headers := list (string * HeaderValue).

(** The request body is [JSON.stringify({query, variables})]; it is kept
    as the pair it serialises. *)
Record RequestBody := { query : string; variables : option value }.

Record RequestInit := {
  method : string;
  init_headers : list (string * string);
  init_body : RequestBody }.

Definition RequestParams := (string * RequestInit)%type.

(** The body of a response as the transport adapter hands it over: the
    decoded chunks it will deliver, and whether reading fails after the
    last of them. *)
Record ChunkSource := { chunks : list text; failure : option string }.

Inductive ResponseBody : Type :=
| BodyNull
| BodyOpaque (content : text)
| BodyReader (source : ChunkSource)
| BodyIterable (source : ChunkSource).

Record Response := {
  status : Z;
  statusText : string;
  ok : bool;
  content_type : option string;
  body : ResponseBody }.

(** What an [Error] carries as its [cause]. *)
Inductive Cause : Type :=
| NoCause
| CauseResponse (r : Response)
| CauseGraphQLErrors (graphQLErrors : value).

Record Error := { error_message : string; error_cause : Cause }.

Definition mkError (msg : string) : Error :=
  {| error_message := msg; error_cause := NoCause |}.

Inductive Outcome (A : Type) : Type :=
| Return (a : A)
| Throw (e : Error).
Arguments Return {A} a.
Arguments Throw {A} e.

Record ResponseErrors := {
  networkStatusCode : option Z;
  message : option string;
  graphQLErrors : option value;
  response : option Response }.

Record ClientResponse := {
  data : option value;
  extensions : option value;
  errors : option ResponseErrors }.

Record ClientStreamResponseIteratorObject := {
  fields : ClientResponse;
  hasNext : value }.

(** An async iterator consumed to its end. *)
Record Consumed (A : Type) := { yielded : list A; thrown : option Error }.

Inductive LogContentTypes : Type :=
| HTTPResponseLog (requestParams : RequestParams) (r : Response)
| HTTPRetryLog (requestParams : RequestParams) (lastResponse : option Response)
    (retryAttempt maxRetries : Z).

Inductive FetchResult : Type :=
| Resolved (r : Response)
| Rejected (e : Error).

(** The transport adapter: what the call number [n] (counted from 0) with
    these parameters gives. *)
Definition CustomFetchApi := nat -> RequestParams -> FetchResult.

Record ClientOptions := {
  opt_headers : Headers;
  opt_url : string;
  opt_customFetchApi : option CustomFetchApi;
  opt_retries : option Z;
  opt_logger : bool }.

Record ClientConfig := {
  cfg_headers : Headers;
  cfg_url : string;
  cfg_retries : Z }.

Record RequestOptions := {
  req_variables : option value;
  req_url : option string;
  req_headers : option Headers;
  req_retries : option Z }.

Definition noOptions : RequestOptions :=
  {| req_variables := None; req_url := None;
     req_headers := None; req_retries := None |}.

(** The part of the world an async function can change: the calls made to
    the transport adapter, the events given to the logger, the sleeps. *)
Record World := {
  calls : list RequestParams;
  logs : list LogContentTypes;
  sleeps : list Z }.

Definition emptyWorld : World := {| calls := []; logs := []; sleeps := [] |}.

Definition Async (A : Type) := World -> Outcome A * World.

Record GraphQLClient := {
  config : ClientConfig;
  fetch : string -> RequestOptions -> Async Response;
  request : string -> RequestOptions -> Async ClientResponse;
  requestStream :
    string -> RequestOptions ->
    Async (Consumed ClientStreamResponseIteratorObject) }.

(** What the host gives and the sources do not contain: [JSON.parse]
    (the parsed value, or the message of the [SyntaxError]); the first
    capture group of [BOUNDARY_HEADER_REGEX] on a content type, when it
    matches; the global [fetch]; the message of the [TypeError] the engine
    raises on a property read from [null] or [undefined], and that of the
    one it raises on an object that cannot be converted to a primitive
    value. *)
Class Host := {
  JSON_parse : text -> value + string;
  BOUNDARY_HEADER_REGEX_match : string -> option string;
  global_fetch : CustomFetchApi;
  typeErrorMessage : string;
  conversionErrorMessage : string }.

End Types.

(** ** utilities.ts *)

Module Utilities.
Import JS Value Types Constants.

(** Modelled from the spec: [formatErrorMessage] of [utilities.ts], which
    is not among the sources (section 4.5): it prepends the client label
    and a colon unless the message already starts with them. *)
Definition formatErrorMessage (msg : string) : string :=
  if String.prefix (CLIENT ++ ": ") msg then msg else CLIENT ++ ": " ++ msg.

(** Modelled from the spec: [getErrorMessage] of [utilities.ts]; every
    thrown value is an [Error] here, and its message is read. *)
Definition getErrorMessage (error : Error) : string := error_message error.

(** Modelled from the spec: [getErrorCause] of [utilities.ts]; the cause
    of the error, from which [status] and [graphQLErrors] are read. *)
Definition getErrorCause (error : Error) : Cause := error_cause error.

Definition cause_status (c : Cause) : value :=
  match c with
  | CauseResponse r => VNum (status r)
  | _ => VUndefined
  end.

Definition cause_graphQLErrors (c : Cause) : value :=
  match c with
  | CauseGraphQLErrors e => e
  | _ => VUndefined
  end.

Definition showZ (n : Z) : string := NilZero.string_of_int (Z.to_int n).

Definition invalidRetriesMessage (client : string) (n : Z) : string :=
  client ++ ": The provided " ++ dquote ++ "retries" ++ dquote ++ " value ("
  ++ showZ n ++ ") is invalid - it cannot be less than " ++ showZ MIN_RETRIES
  ++ " or greater than " ++ showZ MAX_RETRIES.

(** Modelled from the spec: [validateRetries] of [utilities.ts] (section
    4.5): a given value must lie in [[0, 3]]; the failure carries the exact
    message the test suite expects. An omitted value ([undefined]) passes,
    as every call of the test suite without a [retries] option shows. *)
Definition validateRetries (client : string) (retries : option Z)
  : Outcome unit :=
  match retries with
  | None => Return tt
  | Some n =>
      if (n <? MIN_RETRIES) || (n >? MAX_RETRIES)
      then Throw (mkError (invalidRetriesMessage client n))
      else Return tt
  end.

Definition isEmptyObject (v : value) : bool :=
  match v with
  | VObj [] => true
  | _ => false
  end.

Definition isValid (v : value) : bool := truthy v && negb (isEmptyObject v).

(** Modelled from the spec: [getKeyValueIfValid(key, value)] of
    [utilities.ts]. It gives [{[key]: value}] to spread into an object
    literal, or [{}]: here, the value the property [key] receives, if any.
    A value is kept when it is not null and not empty (section 4.4, items
    3 and 9): the test suite sees no [data] property when the combined
    data is [{}]. *)
Definition getKeyValueIfValid (v : value) : option value :=
  if isValid v then Some v else None.

Inductive PathKey : Type :=
| Key (k : string)
| Index (i : nat).

(** Modelled from the spec: [buildDataObjectByPath(path, data)] of
    [utilities.ts] (section 4.4, item 2): [data] is lifted so that it
    resides at [path]; a numeric index constructs an array, a string key
    an object. The positions of an array before the index are holes. *)
Fixpoint buildDataObjectByPath (path : list PathKey) (d : value) : value :=
  match path with
  | [] => d
  | Key k :: rest => VObj [(k, buildDataObjectByPath rest d)]
  | Index i :: rest =>
      VArr (repeat VUndefined i ++ [buildDataObjectByPath rest d])
  end.

Definition pathKeyOf (v : value) : option PathKey :=
  match v with
  | VStr k => Some (Key k)
  | VNum n => if n <? 0 then None else Some (Index (Z.to_nat n))
  | _ => None
  end.

Fixpoint pathKeysOf (items : list value) : option (list PathKey) :=
  match items with
  | [] => Some []
  | v :: rest =>
      match pathKeyOf v, pathKeysOf rest with
      | Some k, Some ks => Some (k :: ks)
      | _, _ => None
      end
  end.

(** The [path] of a payload as a list of keys, when it is one. *)
Definition pathOf (v : value) : option (list PathKey) :=
  match v with
  | VArr items => pathKeysOf items
  | _ => None
  end.

(** Modelled from the spec: the deep merge behind
    [buildCombinedDataObject] of [utilities.ts] (section 4.4, item 5):
    objects are combined key by key, arrays index by index (a hole of the
    new array keeps what the base has there), and anything else is
    overwritten by the new value. *)
Fixpoint combineObjects (base new : value) {struct new} : value :=
  match new with
  | VObj nf =>
      match base with
      | VObj bf =>
          VObj ((fix go (todo : list (string * value))
                        (acc : list (string * value)) {struct todo} :=
                   match todo with
                   | [] => acc
                   | (k, nv) :: rest =>
                       go rest
                         (setField k
                            (match lookup k acc with
                             | Some bv => combineObjects bv nv
                             | None => nv
                             end) acc)
                   end) nf bf)
      | _ => new
      end
  | VArr nl =>
      match base with
      | VArr bl =>
          VArr ((fix go (todo : list value) (have : list value)
                        {struct todo} :=
                   match todo with
                   | [] => have
                   | nv :: rest =>
                       match have with
                       | [] => nv :: go rest []
                       | bv :: have' =>
                           (if isHole nv then bv else combineObjects bv nv)
                           :: go rest have'
                       end
                   end) nl bl)
      | _ => new
      end
  | _ => new
  end.

(** Modelled from the spec: [buildCombinedDataObject([initial, ...rest])]
    of [utilities.ts]: the data objects merged from left to right. *)
Definition buildCombinedDataObject (all : list value) : value :=
  match all with
  | [] => VObj []
  | initialDatum :: remainingData =>
      fold_left combineObjects remainingData initialDatum
  end.

End Utilities.

(** ** http-fetch.ts *)

Module HttpFetch.
Import JS Value Types Constants Utilities.

(** Modelled from the spec: the steps of the executor of section 4.1.
    The logger is optional ([logger] tells whether there is a sink), an
    event given to it is recorded in the world, and so is a sleep. *)
Definition clientLogger (logger : bool) (logContent : LogContentTypes)
  (w : World) : World :=
  if logger
  then {| calls := calls w; logs := logs w ++ [logContent];
          sleeps := sleeps w |}
  else w.

Definition sleep (waitTime : Z) (w : World) : World :=
  {| calls := calls w; logs := logs w; sleeps := sleeps w ++ [waitTime] |}.

(** One call of the transport adapter; the call is recorded. *)
Definition callTransport (customFetchApi : CustomFetchApi)
  (requestParams : RequestParams) (w : World) : FetchResult * World :=
  (customFetchApi (length (calls w)) requestParams,
   {| calls := calls w ++ [requestParams]; logs := logs w;
      sleeps := sleeps w |}).

(** The statuses that are retried. *)
Definition retriable (r : Response) : bool :=
  existsb (Z.eqb (status r)) RETRIABLE_STATUS_CODES.

(** The message thrown when the transport has failed at every attempt. *)
Definition exhaustedMessage (maxRetries : Z) (lastMessage : string) : string :=
  formatErrorMessage
    ((if 0 <? maxRetries
      then "Attempted maximum number of " ++ showZ maxRetries
           ++ " network retries. Last message - "
      else "") ++ lastMessage).

(** Before an attempt is made again: the [HTTP-Retry] event, then the
    sleep. *)
Definition beforeRetry (logger : bool) (requestParams : RequestParams)
  (lastResponse : option Response) (attempt maxRetries : Z) (w : World)
  : World :=
  sleep RETRY_WAIT_TIME
    (clientLogger logger
       (HTTPRetryLog requestParams lastResponse attempt maxRetries) w).

(** Modelled from the spec: the function [generateHttpFetch] returns, of
    [http-fetch.ts], which is not among the sources (section 4.1). One
    call of the transport per attempt. A transport failure and a response
    of status 429 or 503 are retried while [attempt <= maxRetries], after
    an [HTTP-Retry] event and a sleep of [RETRY_WAIT_TIME]. When the
    attempts are exhausted a transport failure is thrown, with the
    label-prefixed message the test suite matches ([Attempted maximum
    number of ... network retries. Last message - ...], and the plain
    message when [maxRetries] is 0), and a 429 or 503 response is returned
    without an [HTTP-Response] event. Any other response is logged and
    returned at once. *)
Equations? httpFetch (customFetchApi : CustomFetchApi) (logger : bool)
  (requestParams : RequestParams) (attempt maxRetries : Z) (w : World)
  : Outcome Response * World
  by wf (Z.to_nat (maxRetries + 1 - attempt)) lt :=
  httpFetch customFetchApi logger requestParams attempt maxRetries w
    with callTransport customFetchApi requestParams w := {
    | (Rejected error, w1) with Z_le_gt_dec attempt maxRetries := {
        | left _ =>
            httpFetch customFetchApi logger requestParams (attempt + 1)
              maxRetries
              (beforeRetry logger requestParams None attempt maxRetries w1)
        | right _ =>
            (Throw (mkError
                      (exhaustedMessage maxRetries (getErrorMessage error))),
             w1) }
    | (Resolved r, w1) with retriable r := {
        | true with Z_le_gt_dec attempt maxRetries := {
            | left _ =>
                httpFetch customFetchApi logger requestParams (attempt + 1)
                  maxRetries
                  (beforeRetry logger requestParams (Some r) attempt
                     maxRetries w1)
            | right _ => (Return r, w1) }
        | false =>
            (Return r,
             clientLogger logger (HTTPResponseLog requestParams r) w1) } }.
Proof. all: lia. Qed.

End HttpFetch.

(** ** graphql-client.ts *)

Module Client.
Import JS Value Types Constants Utilities HttpFetch.

Section WithHost.
Context {host : Host}.

Definition bodyText (b : ResponseBody) : text :=
  match b with
  | BodyNull => []
  | BodyOpaque content => content
  | BodyReader source | BodyIterable source => concat (chunks source)
  end.

Definition bodyFailure (b : ResponseBody) : option string :=
  match b with
  | BodyReader source | BodyIterable source => failure source
  | _ => None
  end.

(** [response.json()]: the whole body, read and parsed. *)
Definition json (r : Response) : Outcome value :=
  match bodyFailure (body r) with
  | Some msg => Throw (mkError msg)
  | None =>
      match JSON_parse (bodyText (body r)) with
      | inl v => Return v
      | inr msg => Throw (mkError msg)
      end
  end.

(** Destructuring [const {...} = v] fails on [null] and [undefined]. *)
Definition destructurable (v : value) : bool :=
  match v with
  | VNull | VUndefined => false
  | _ => true
  end.

Definition processJSONResponse (r : Response) : Outcome ClientResponse :=
  match json r with
  | Throw e => Throw e
  | Return payload =>
      if negb (destructurable payload) then Throw (mkError typeErrorMessage)
      else
        let errors := get payload "errors" in
        let data := get payload "data" in
        let extensions := get payload "extensions" in
        Return
          {| data := getKeyValueIfValid data;
             extensions := getKeyValueIfValid extensions;
             errors :=
               if truthy errors || negb (truthy data)
               then Some
                      {| networkStatusCode := Some (status r);
                         message :=
                           Some (formatErrorMessage
                                   (if truthy errors then GQL_API_ERROR
                                    else NO_DATA_OR_ERRORS_ERROR));
                         graphQLErrors := getKeyValueIfValid errors;
                         response := Some r |}
               else None |}
  end.

(** [value.join(", ")] for a list, [value.toString()] for a string. *)
Definition flattenHeader (v : HeaderValue) : string :=
  match v with
  | HString s => s
  | HList l => String.concat ", " l
  end.

Fixpoint setHeader (k : string) (x : HeaderValue) (h : Headers) : Headers :=
  match h with
  | [] => [(k, x)]
  | (k', v) :: rest =>
      if String.eqb k k' then (k', x) :: rest else (k', v) :: setHeader k x rest
  end.

(** [{...headers, ...overrideHeaders}]. *)
Definition spreadHeaders (headers : Headers) (overrideHeaders : option Headers)
  : Headers :=
  match overrideHeaders with
  | None => headers
  | Some o => fold_left (fun acc kv => setHeader (fst kv) (snd kv) acc) o headers
  end.

Definition generateFetch
  (httpFetch : RequestParams -> Z -> Z -> Async Response)
  (cfg : ClientConfig) (operation : string) (options : RequestOptions)
  : Async Response :=
  fun w =>
    let overrideRetries := req_retries options in
    let body := {| query := operation; variables := req_variables options |} in
    match validateRetries CLIENT overrideRetries with
    | Throw e => (Throw e, w)
    | Return _ =>
        let flatHeaders :=
          map (fun kv => (fst kv, flattenHeader (snd kv)))
            (spreadHeaders (cfg_headers cfg) (req_headers options)) in
        let fetchParams : RequestParams :=
          (match req_url options with
           | Some overrideUrl => overrideUrl
           | None => cfg_url cfg
           end,
           {| method := "POST"; init_headers := flatHeaders;
              init_body := body |}) in
        httpFetch fetchParams 1
          (match overrideRetries with
           | Some n => n
           | None => cfg_retries cfg
           end) w
    end.

(** [response.headers.get("content-type") || ""]. *)
Definition contentTypeOf (r : Response) : string :=
  match content_type r with
  | Some s => s
  | None => ""
  end.

Definition onlyErrors (e : ResponseErrors) : ClientResponse :=
  {| data := None; extensions := None; errors := Some e |}.

Definition STREAMABLE_ERROR : string :=
  "This operation will result in a streamable response - use requestStream() instead.".
Definition NOT_STREAMABLE_ERROR : string :=
  "This operation does not result in a streamable response - use request() instead.".

(** The promise [processJSONResponse] returns is returned without being
    awaited: its rejection is not caught by the [catch] around it. *)
Definition generateRequest
  (fetch : string -> RequestOptions -> Async Response)
  (operation : string) (options : RequestOptions) : Async ClientResponse :=
  fun w =>
    if DEFER_OPERATION_REGEX_test operation
    then (Throw (mkError (formatErrorMessage STREAMABLE_ERROR)), w)
    else
      match fetch operation options w with
      | (Throw error, w') =>
          (Return (onlyErrors
                     {| networkStatusCode := None;
                        message := Some (getErrorMessage error);
                        graphQLErrors := None;
                        response := None |}), w')
      | (Return r, w') =>
          let contentType := contentTypeOf r in
          if negb (ok r)
          then (Return (onlyErrors
                          {| networkStatusCode := Some (status r);
                             message :=
                               Some (formatErrorMessage (statusText r));
                             graphQLErrors := None;
                             response := Some r |}), w')
          else if negb (includes contentType CONTENT_TYPES_json)
          then (Return (onlyErrors
                          {| networkStatusCode := Some (status r);
                             message :=
                               Some (formatErrorMessage
                                       (UNEXPECTED_CONTENT_TYPE_ERROR ++ " "
                                        ++ contentType));
                             graphQLErrors := None;
                             response := Some r |}), w')
          else (processJSONResponse r, w')
      end.

(** The chunks of the body as strings, for the two shapes a body has. A
    body of neither shape has no reader to get. *)
Definition getStreamBodyIterator (r : Response) : ChunkSource :=
  match body r with
  | BodyReader source | BodyIterable source => source
  | _ => {| chunks := []; failure := Some typeErrorMessage |}
  end.

(** The body of a part: what follows the first header separator, trimmed.
    [indexOf] is [-1] when the part has no separator. *)
Definition partBody (chunk : text) : text :=
  trim (slice chunk
          (indexOf chunk HEADER_SEPARATOR
           + Z.of_nat (length HEADER_SEPARATOR)) None).

Definition chunkBodiesOf (fullResponses boundary : text) : list text :=
  map partBody
    (filter (fun chunk => (0 <? length (trim chunk))%nat)
       (split fullResponses boundary)).

(** The body of the [for await] loop of [readStreamChunk]: the batch it
    yields, if any, and the buffer it leaves. *)
Definition readStep (boundary buffer textChunk : text)
  : option (list text) * text :=
  let buffer := buffer ++ textChunk in
  if indexOf buffer boundary >? -1 then
    let lastBoundaryIndex := lastIndexOf buffer boundary in
    let fullResponses := slice buffer 0 (Some lastBoundaryIndex) in
    let chunkBodies := chunkBodiesOf fullResponses boundary in
    let buffer' :=
      slice buffer (lastBoundaryIndex + Z.of_nat (length boundary)) None in
    ((if (0 <? length chunkBodies)%nat then Some chunkBodies else None),
     (if text_eqb (trim buffer') (t "--") then [] else buffer'))
  else (None, buffer).

(** The loop, from a buffer: the batches yielded while the chunks are
    consumed. Nothing is done when the chunks end. *)
Fixpoint readFrom (boundary buffer : text) (textChunks : list text)
  : list (list text) :=
  match textChunks with
  | [] => []
  | textChunk :: rest =>
      match readStep boundary buffer textChunk with
      | (Some chunkBodies, buffer') =>
          chunkBodies :: readFrom boundary buffer' rest
      | (None, buffer') => readFrom boundary buffer' rest
      end
  end.

(** The buffer the loop holds once the chunks are consumed. *)
Fixpoint bufferAfter (boundary buffer : text) (textChunks : list text) : text :=
  match textChunks with
  | [] => buffer
  | textChunk :: rest =>
      bufferAfter boundary (snd (readStep boundary buffer textChunk)) rest
  end.

Definition readStreamChunk (streamBodyIterator : ChunkSource) (boundary : text)
  : Consumed (list text) :=
  {| yielded := readFrom boundary [] (chunks streamBodyIterator);
     thrown :=
       match failure streamBodyIterator with
       | Some msg =>
           Some (mkError
                   ("Error occured while processing stream payload - " ++ msg))
       | None => None
       end |}.

(** One parsed payload of a batch, as the merger keeps it. *)
Record Datum := {
  datum_data : value;
  datum_errors : option value;
  datum_extensions : option value;
  datum_hasNext : value }.

Definition optional (o : option value) : value :=
  match o with
  | Some v => v
  | None => VUndefined
  end.

Fixpoint mapOutcome {A B : Type} (f : A -> Outcome B) (l : list A)
  : Outcome (list B) :=
  match l with
  | [] => Return []
  | a :: rest =>
      match f a with
      | Throw e => Throw e
      | Return b =>
          match mapOutcome f rest with
          | Throw e => Throw e
          | Return bs => Return (b :: bs)
          end
      end
  end.

Definition parsePayload (v : text) : Outcome value :=
  match JSON_parse v with
  | inl payload => Return payload
  | inr msg =>
      Throw (mkError ("Error in parsing multipart response - " ++ msg))
  end.

(** The second [map] of the merger. A [path] that is not a list of keys
    and indices cannot be walked by [buildDataObjectByPath]. *)
Definition toDatum (payload : value) : Outcome Datum :=
  if negb (destructurable payload) then Throw (mkError typeErrorMessage)
  else
    let data := get payload "data" in
    let path := get payload "path" in
    let hasNext := get payload "hasNext" in
    let extensions := get payload "extensions" in
    let errors := get payload "errors" in
    let datum payloadData :=
      {| datum_data := payloadData;
         datum_errors := getKeyValueIfValid errors;
         datum_extensions := getKeyValueIfValid extensions;
         datum_hasNext := hasNext |} in
    if truthy data && truthy path
    then match pathOf path with
         | Some keys => Return (datum (buildDataObjectByPath keys data))
         | None => Throw (mkError typeErrorMessage)
         end
    else Return (datum (if truthy data then data else VObj [])).

(** [errors.length]: the length of an array or of a string, the property
    of that name of an object. *)
Definition lengthOf (v : value) : value :=
  match v with
  | VArr items => VNum (Z.of_nat (length items))
  | VStr s => VNum (Z.of_nat (String.length s))
  | _ => get v "length"
  end.

(** [v > 0], with the conversion of [v] to a number. *)
Definition positive (v : value) : Outcome bool :=
  match aboveZeroOf v with
  | Some b => Return b
  | None => Throw (mkError conversionErrorMessage)
  end.

(** [errors && errors.length > 0], as a condition. *)
Definition hasLength (errors : value) : Outcome bool :=
  if truthy errors then positive (lengthOf errors) else Return false.

(** [l.filter(f)] for an [f] that may throw. *)
Fixpoint filterOutcome {A : Type} (f : A -> Outcome bool) (l : list A)
  : Outcome (list A) :=
  match l with
  | [] => Return []
  | a :: rest =>
      match f a with
      | Throw e => Throw e
      | Return keep =>
          match filterOutcome f rest with
          | Throw e => Throw e
          | Return kept => Return (if keep then a :: kept else kept)
          end
      end
  end.

(** [Array.prototype.flat()], one level deep. *)
Definition flat (l : list value) : list value :=
  concat (map (fun v => match v with
                        | VArr items =>
                            filter (fun x => negb (isHole x)) items
                        | _ => [v]
                        end) l).

(** The accumulator of one stream. *)
Record StreamState := {
  combinedData : value;
  responseExtensions : value;
  streamHasNext : value }.

Definition initialState : StreamState :=
  {| combinedData := VObj [];
     responseExtensions := VUndefined;
     streamHasNext := VBool true |}.

(** [dataArray.find((datum) => datum.extensions)?.extensions ??
    responseExtensions]. *)
Definition nextExtensions (dataArray : list Datum) (responseExtensions : value)
  : value :=
  nullish
    (match find (fun datum => truthy (optional (datum_extensions datum)))
             dataArray with
     | Some datum => optional (datum_extensions datum)
     | None => VUndefined
     end)
    responseExtensions.

Definition snapshotOf (st : StreamState) (e : option ResponseErrors)
  (hasNext : value) : ClientStreamResponseIteratorObject :=
  {| fields :=
       {| data := getKeyValueIfValid (combinedData st);
          extensions := getKeyValueIfValid (responseExtensions st);
          errors := e |};
     hasNext := hasNext |}.

Inductive BatchResult : Type :=
| Yields (snapshot : ClientStreamResponseIteratorObject)
| Fails (error : Error).

(** The body of the [for await] loop of the merger: the accumulator it
    leaves, and the snapshot it yields or the error it throws. The
    extensions are assigned before the errors of the batch are collected,
    the data and [hasNext] after that and before the batch is checked for
    errors. *)
Definition processBatch (st : StreamState) (chunkBodies : list text)
  : StreamState * BatchResult :=
  match mapOutcome parsePayload chunkBodies with
  | Throw e => (st, Fails e)
  | Return payloads =>
      match mapOutcome toDatum payloads with
      | Throw e => (st, Fails e)
      | Return dataArray =>
          let responseExtensions :=
            nextExtensions dataArray (responseExtensions st) in
          match filterOutcome hasLength
                  (map (fun datum => optional (datum_errors datum))
                     dataArray) with
          | Throw e =>
              ({| combinedData := combinedData st;
                  responseExtensions := responseExtensions;
                  streamHasNext := streamHasNext st |},
               Fails e)
          | Return withErrors =>
              let responseErrors := flat withErrors in
              let combinedData :=
                buildCombinedDataObject
                  (combinedData st :: map datum_data dataArray) in
              match last (map Some dataArray) None with
              | None =>
                  ({| combinedData := combinedData;
                      responseExtensions := responseExtensions;
                      streamHasNext := streamHasNext st |},
                   Fails (mkError typeErrorMessage))
              | Some lastDatum =>
                  let st' :=
                    {| combinedData := combinedData;
                       responseExtensions := responseExtensions;
                       streamHasNext := datum_hasNext lastDatum |} in
                  if (0 <? length responseErrors)%nat
                  then (st', Fails {| error_message := GQL_API_ERROR;
                                      error_cause :=
                                        CauseGraphQLErrors
                                          (VArr responseErrors) |})
                  else if (keyCount combinedData =? 0)%nat
                  then (st', Fails (mkError NO_DATA_OR_ERRORS_ERROR))
                  else (st', Yields (snapshotOf st' None (streamHasNext st')))
              end
          end
      end
  end.

(** The merger's loop over the batches: the snapshots it yields, the
    accumulator at the end, and the error that stopped it, if any. *)
Fixpoint mergeFrom (st : StreamState) (batches : list (list text))
  : list ClientStreamResponseIteratorObject * StreamState * option Error :=
  match batches with
  | [] => ([], st, None)
  | chunkBodies :: rest =>
      match processBatch st chunkBodies with
      | (st', Yields snapshot) =>
          let '(snapshots, st'', e) := mergeFrom st' rest in
          (snapshot :: snapshots, st'', e)
      | (st', Fails e) => ([], st', Some e)
      end
  end.

Definition TERMINATED_ERROR : string :=
  "Response stream terminated unexpectedly".

(** The snapshot of the [catch] of the merger. *)
Definition errorSnapshot (status : Z) (st : StreamState) (error : Error)
  : ClientStreamResponseIteratorObject :=
  snapshotOf st
    (Some {| networkStatusCode := Some status;
             message := Some (formatErrorMessage (getErrorMessage error));
             graphQLErrors :=
               getKeyValueIfValid (cause_graphQLErrors (getErrorCause error));
             response := None |})
    (VBool false).

(** What stops the merger: an error of its own loop, else an error of the
    parser, else a last [hasNext] that is still true. *)
Definition streamFailure (e : option Error) (parser : option Error)
  (st : StreamState) : option Error :=
  match e with
  | Some error => Some error
  | None =>
      match parser with
      | Some error => Some error
      | None =>
          if truthy (streamHasNext st) then Some (mkError TERMINATED_ERROR)
          else None
      end
  end.

(** [iteratorResponse], consumed: the parser's batches are merged one by
    one; on any failure one last snapshot carries the error. *)
Definition iteratorResponse (status : Z) (parsed : Consumed (list text))
  : Consumed ClientStreamResponseIteratorObject :=
  let '(snapshots, st, e) := mergeFrom initialState (yielded parsed) in
  {| yielded :=
       snapshots
       ++ match streamFailure e (thrown parsed) st with
          | Some error => [errorSnapshot status st error]
          | None => []
          end;
     thrown := None |}.

(** The iterator of the outer [catch] of [requestStream]. *)
Definition failedStream (error : Error)
  : Consumed ClientStreamResponseIteratorObject :=
  let cause := getErrorCause error in
  {| yielded :=
       [{| fields :=
             onlyErrors
               {| networkStatusCode :=
                    match getKeyValueIfValid (cause_status cause) with
                    | Some (VNum n) => Some n
                    | _ => None
                    end;
                  message :=
                    Some (formatErrorMessage (getErrorMessage error));
                  graphQLErrors := None;
                  response := None |};
           hasNext := VBool false |}];
     thrown := None |}.

(** The iterator of a JSON response: one snapshot, or the rejection of
    [processJSONResponse]. *)
Definition jsonStream (r : Response)
  : Consumed ClientStreamResponseIteratorObject :=
  match processJSONResponse r with
  | Return processedResponse =>
      {| yielded := [{| fields := processedResponse; hasNext := VBool false |}];
         thrown := None |}
  | Throw e => {| yielded := []; thrown := Some e |}
  end.

Definition boundaryOf (responseContentType : string) : text :=
  t ("--" ++ match BOUNDARY_HEADER_REGEX_match responseContentType with
             | Some token => token
             | None => "-"
             end).

Definition generateRequestStream
  (fetch : string -> RequestOptions -> Async Response)
  (operation : string) (options : RequestOptions)
  : Async (Consumed ClientStreamResponseIteratorObject) :=
  fun w =>
    if negb (DEFER_OPERATION_REGEX_test operation)
    then (Throw (mkError (formatErrorMessage NOT_STREAMABLE_ERROR)), w)
    else
      match fetch operation options w with
      | (Throw error, w') => (Return (failedStream error), w')
      | (Return r, w') =>
          if negb (ok r)
          then (Return (failedStream
                          {| error_message := statusText r;
                             error_cause := CauseResponse r |}), w')
          else
            let responseContentType := contentTypeOf r in
            if forallb (fun type => negb (includes responseContentType type))
                 CONTENT_TYPES
            then (Return (failedStream
                            {| error_message :=
                                 UNEXPECTED_CONTENT_TYPE_ERROR ++ " "
                                 ++ responseContentType;
                               error_cause := CauseResponse r |}), w')
            else if includes responseContentType CONTENT_TYPES_json
            then (Return (jsonStream r), w')
            else
              let boundary := boundaryOf responseContentType in
              match body r with
              | BodyNull => (Return (failedStream (mkError typeErrorMessage)), w')
              | BodyOpaque _ =>
                  (Return (failedStream
                             {| error_message :=
                                  "API multipart response did not return an iterable body";
                                error_cause := CauseResponse r |}), w')
              | _ =>
                  (Return (iteratorResponse (status r)
                             (readStreamChunk (getStreamBodyIterator r)
                                boundary)), w')
              end
      end.

(** [generateClientLogger(logger)]: the events reach the sink when there
    is one. *)
Definition generateClientLogger (logger : bool)
  : LogContentTypes -> World -> World :=
  clientLogger logger.

(** The client logger is the one [generateClientLogger] gives for the
    [logger] option; the executor of [HttpFetch] builds it from the same
    flag. *)
Definition createGraphQLClient (options : ClientOptions)
  : Outcome GraphQLClient :=
  let retries := match opt_retries options with
                 | Some n => n
                 | None => 0
                 end in
  let customFetchApi := match opt_customFetchApi options with
                        | Some api => api
                        | None => global_fetch
                        end in
  match validateRetries CLIENT (Some retries) with
  | Throw e => Throw e
  | Return _ =>
      let cfg := {| cfg_headers := opt_headers options;
                    cfg_url := opt_url options;
                    cfg_retries := retries |} in
      let httpFetch := httpFetch customFetchApi (opt_logger options) in
      let fetch := generateFetch httpFetch cfg in
      Return {| config := cfg;
                fetch := fetch;
                request := generateRequest fetch;
                requestStream := generateRequestStream fetch |}
  end.

End WithHost.

End Client.

(** ** A host to run the model on *)

Module Example.
Import JS Value Types Constants Utilities HttpFetch Client.

Definition shopId : value := VObj [("shop", VObj [("id", VStr "gid://shopify/Shop/1")])].
Definition context (language : string) : value :=
  VObj [("context", VObj [("country", VStr "JP"); ("language", VStr language)])].
Definition shopName : value :=
  VObj [("name", VStr "Shop 1"); ("description", VStr "Test shop description")].

(** The payloads of the streamed scenarios, under short names. *)
Definition initialPart : value :=
  VObj [("data", shopId); ("extensions", context "EN"); ("hasNext", VBool true)].
Definition deferredPart : value :=
  VObj [("path", VArr [VStr "shop"]); ("data", shopName);
        ("hasNext", VBool false); ("errors", VArr [])].
Definition otherPart : value :=
  VObj [("data", shopId); ("extensions", context "ja"); ("hasNext", VBool true)].
Definition errorsPart : value :=
  VObj [("errors", VArr [VStr "GQL error"]); ("hasNext", VBool false)].

(** [JSON.parse] on the few texts the examples use. *)
Definition parse (v : text) : value + string :=
  if text_eqb v (t "{initial}") then inl initialPart
  else if text_eqb v (t "{deferred}") then inl deferredPart
  else if text_eqb v (t "{other}") then inl otherPart
  else if text_eqb v (t "{errors}") then inl errorsPart
  else if text_eqb v (t "{}") then inl (VObj [])
  else if text_eqb v (t "{data:{}}") then inl (VObj [("data", VObj [])])
  else if text_eqb v (t "null") then inl VNull
  else inr "Unexpected token".

Definition aborted : CustomFetchApi :=
  fun _ _ => Rejected (mkError "The operation was aborted.").

Definition host : Host :=
  {| JSON_parse := parse;
     BOUNDARY_HEADER_REGEX_match := fun _ => Some "graphql";
     global_fetch := aborted;
     typeErrorMessage := "Cannot read properties of undefined";
     conversionErrorMessage := "Cannot convert object to primitive value" |}.

Definition jsonResponse (code : Z) (text : string) (isOk : bool) (content : string)
  : Response :=
  {| status := code; statusText := text; ok := isOk;
     content_type := Some "application/json";
     body := BodyOpaque (t content) |}.

(** A transport that answers every call with the same response. *)
Definition always (r : Response) : CustomFetchApi := fun _ _ => Resolved r.

(** A transport that answers its first call 429 and the others 200. *)
Definition busyOnce : CustomFetchApi :=
  fun n _ =>
    match n with
    | O => Resolved (jsonResponse 429 "Too Many Requests" false "{}")
    | S _ => Resolved (jsonResponse 200 "OK" true "{}")
    end.

Definition clientOptions (api : CustomFetchApi) (retries : option Z)
  : ClientOptions :=
  {| opt_headers := [("Content-Type", HString "application/json")];
     opt_url := "http://test-store.myshopify.com/api/2023-10/graphql.json";
     opt_customFetchApi := Some api;
     opt_retries := retries;
     opt_logger := true |}.

Definition withRetries (n : Z) : RequestOptions :=
  {| req_variables := None; req_url := None; req_headers := None;
     req_retries := Some n |}.

Definition plainOperation : string := "query { shop { name } }".
Definition deferOperation : string := "query { shop { id ... @defer { name } } }".

(** A transport-free [fetch] that answers with a given response. *)
Definition answering (r : Response)
  : string -> RequestOptions -> Async Response :=
  fun _ _ w => (Return r, w).

(** A configuration without retries. *)
Definition abortingConfig : ClientConfig :=
  {| cfg_headers := []; cfg_url := "http://localhost/graphql";
     cfg_retries := 0 |}.

Definition exampleParams : RequestParams :=
  ("http://localhost/graphql",
   {| method := "POST"; init_headers := [];
      init_body := {| query := plainOperation; variables := None |} |}).

(** Scenario S7: one part with [hasNext: true], then the end. *)
Definition prematureEnd : Consumed (list text) :=
  {| yielded := [[t "{initial}"]]; thrown := None |}.

(** A multipart response delivered in two chunks. *)
Definition multipartResponse : Response :=
  {| status := 200; statusText := "OK"; ok := true;
     content_type := Some "multipart/mixed; boundary=graphql";
     body :=
       BodyReader
         {| chunks :=
              [t "--graphql Content-Type: application/json" ++ HEADER_SEPARATOR
               ++ t "{initial} --graphql ";
               t " Content-Type: application/json" ++ HEADER_SEPARATOR
               ++ t "{deferred} --graphql--"];
            failure := None |} |}.

End Example.

(** ** Notions the properties are stated with *)

Module Notions.
Import JS Value Types Constants Utilities HttpFetch Client.

(** Reading a value back at a path: [v[k1][k2]...]. *)
Fixpoint projectByPath (path : list PathKey) (v : value) : value :=
  match path with
  | [] => v
  | Key k :: rest => projectByPath rest (get v k)
  | Index i :: rest => projectByPath rest (at_index v i)
  end.

(** The extensions of the payloads of a batch that are neither null nor
    empty, in the order of the batch. *)
Definition validExtensions (payloads : list value) : list value :=
  filter isValid (map (fun payload => get payload "extensions") payloads).

Definition firstOr (prior : value) (l : list value) : value :=
  match l with
  | [] => prior
  | v :: _ => v
  end.

(** The message of the validation, as the test suite spells it. *)
Definition validationMessage (n : Z) : string :=
  "GraphQL Client: The provided " ++ dquote ++ "retries" ++ dquote
  ++ " value (" ++ showZ n
  ++ ") is invalid - it cannot be less than 0 or greater than 3".

(** What an attempt that calls for a retry looks like: the transport
    failed, or answered 429 or 503. *)
Definition callsForRetry (res : FetchResult) : Prop :=
  match res with
  | Rejected _ => True
  | Resolved r => status r = 429 \/ status r = 503
  end.

(** What [httpFetch] does with the result of its last attempt. *)
Definition surfaced (maxRetries : Z) (res : FetchResult) : Outcome Response :=
  match res with
  | Rejected error =>
      Throw (mkError (exhaustedMessage maxRetries (getErrorMessage error)))
  | Resolved r => Return r
  end.

(** [overrideRetries ?? retries]. *)
Definition effectiveRetries (cfg : ClientConfig) (options : RequestOptions)
  : Z :=
  match req_retries options with
  | Some n => n
  | None => cfg_retries cfg
  end.

(** The HTTP requests issued between two worlds. *)
Definition attempts (w w' : World) : Z :=
  Z.of_nat (length (calls w')) - Z.of_nat (length (calls w)).


Section WithHost.
Context {host : Host}.

(** The [hasNext] of the payload a part body parses to. *)
Definition hasNextOfBody (body : text) : value :=
  match JSON_parse body with
  | inl payload => get payload "hasNext"
  | inr _ => VUndefined
  end.

(** The [hasNext] last seen when the batches have been processed: that of
    the last payload of the last batch, and [true], its initial value,
    while no payload has been processed. *)
Definition lastHasNext (batches : list (list text)) : value :=
  match last (map Some batches) None with
  | None => VBool true
  | Some chunkBodies =>
      match last (map Some chunkBodies) None with
      | Some body => hasNextOfBody body
      | None => VUndefined
      end
  end.

End WithHost.

End Notions.

(** ** Notions the further properties are stated with *)

Module MoreNotions.
Import JS Value Types Constants Utilities HttpFetch Client Notions.

(** The value an object holds under a name, the object being the list of
    its entries. *)
Fixpoint entryOf {A : Type} (k : string) (h : list (string * A)) : option A :=
  match h with
  | [] => None
  | (k', v) :: rest => if String.eqb k k' then Some v else entryOf k rest
  end.

(** The value the per-call [headers] give for a name: of two entries of
    the same name the later one counts. *)
Definition overrideOf (k : string) (overrideHeaders : option Headers)
  : option HeaderValue :=
  match overrideHeaders with
  | None => None
  | Some o => entryOf k (rev o)
  end.

(** The header a call sends under a name: the per-call one, else the
    client's, flattened. *)
Definition headerSent (cfg : ClientConfig) (options : RequestOptions)
  (k : string) : option string :=
  option_map flattenHeader
    (match overrideOf k (req_headers options) with
     | Some v => Some v
     | None => entryOf k (cfg_headers cfg)
     end).

(** What every HTTP request of a call looks like, its headers apart. *)
Definition sentBy (cfg : ClientConfig) (operation : string)
  (options : RequestOptions) (p : RequestParams) : Prop :=
  fst p = match req_url options with
          | Some overrideUrl => overrideUrl
          | None => cfg_url cfg
          end
  /\ method (snd p) = "POST"
  /\ init_body (snd p)
     = {| query := operation; variables := req_variables options |}
  /\ forall k, entryOf k (init_headers (snd p)) = headerSent cfg options k.

(** A stream that ends well: its last snapshot, and only its last, may
    carry errors, and the last one has a [hasNext] that is not truthy. *)
Definition endsWell (yielded : list ClientStreamResponseIteratorObject)
  : Prop :=
  exists init last,
    yielded = init ++ [last]
    /\ Forall (fun snapshot => errors (fields snapshot) = None) init
    /\ truthy (hasNext last) = false.

(** The [hasNext] of the last body of a batch. *)
Definition batchHasNext {host : Host} (chunkBodies : list text) : value :=
  lastHasNext [chunkBodies].

(** The stream of a call that failed on its response before any part
    was read: one snapshot, with the status unless it is 0, the message
    after the label, and no response object. *)
Definition failureReport (r : Response) (msg : string)
  : Consumed ClientStreamResponseIteratorObject :=
  {| yielded :=
       [{| fields :=
             onlyErrors
               {| networkStatusCode :=
                    if status r =? 0 then None else Some (status r);
                  message := Some (formatErrorMessage msg);
                  graphQLErrors := None;
                  response := None |};
           hasNext := VBool false |}];
     thrown := None |}.

(** A client configuration and per-call options with headers, for the
    examples. *)
Definition headedConfig : ClientConfig :=
  {| cfg_headers := [("Content-Type", HString "application/json");
                     ("X-Tags", HList ["a"; "b"])];
     cfg_url := "http://localhost/graphql";
     cfg_retries := 1 |}.

Definition headedOptions : RequestOptions :=
  {| req_variables := None;
     req_url := Some "http://localhost/other";
     req_headers := Some [("Content-Type", HString "application/graphql")];
     req_retries := None |}.

End MoreNotions.

(** * Properties *)

Module Properties.
Import JS Value Types Constants Utilities HttpFetch Client Notions.

(** ** Path lift *)

Lemma get_singleton (k : string) (x : value) : get (VObj [(k, x)]) k = x.
Proof. simpl. now rewrite String.eqb_refl. Qed.

Lemma at_index_lifted (i : nat) (x : value) :
  at_index (VArr (repeat VUndefined i ++ [x])) i = x.
Proof.
  simpl. rewrite app_nth2; rewrite repeat_length; [|lia].
  now rewrite Nat.sub_diag.
Qed.

(** A string key builds an object and a numeric index an array. *)
Lemma buildDataObjectByPath_shape (path : list PathKey) (d : value) :
  match path with
  | [] => buildDataObjectByPath path d = d
  | Key k :: rest =>
      buildDataObjectByPath path d = VObj [(k, buildDataObjectByPath rest d)]
  | Index i :: rest =>
      exists items, buildDataObjectByPath path d = VArr items
                    /\ length items = S i
  end.
Proof.
  destruct path as [|[k|i] rest]; simpl; try reflexivity.
  eexists; split; [reflexivity|].
  rewrite length_app, repeat_length; simpl; lia.
Qed.

(** C9. For every path of string keys and numeric indices and every data
    value, [buildDataObjectByPath path data] builds a nested structure (an
    object for a string key, an array for a numeric index) which, read
    back at [path], is [data]. *)
Theorem buildDataObjectByPath_roundtrip (path : list PathKey) (d : value) :
  projectByPath path (buildDataObjectByPath path d) = d
  /\ match path with
     | [] => buildDataObjectByPath path d = d
     | Key k :: rest =>
         buildDataObjectByPath path d
         = VObj [(k, buildDataObjectByPath rest d)]
     | Index i :: rest =>
         exists items, buildDataObjectByPath path d = VArr items
                       /\ length items = S i
     end.
Proof.
  split; [|apply buildDataObjectByPath_shape].
  induction path as [|[k|i] rest IH];
    cbn [projectByPath buildDataObjectByPath].
  - reflexivity.
  - now rewrite get_singleton.
  - now rewrite at_index_lifted.
Qed.

(** ** The defer guards *)

Section Guards.
Context {host : Host}.

(** C5. For every operation string: when it matches the defer-detection
    regular expression, [request] throws and leaves the world as it was,
    so no HTTP request was issued; when it does not match, [requestStream]
    does. This holds whatever [fetch] the entry point was built on. *)
Theorem defer_mismatch_throws_before_fetch
  (fetch : string -> RequestOptions -> Async Response)
  (operation : string) (options : RequestOptions) (w : World) :
  if DEFER_OPERATION_REGEX_test operation
  then generateRequest fetch operation options w
       = (Throw (mkError (formatErrorMessage STREAMABLE_ERROR)), w)
  else generateRequestStream fetch operation options w
       = (Throw (mkError (formatErrorMessage NOT_STREAMABLE_ERROR)), w).
Proof.
  unfold generateRequest, generateRequestStream.
  destruct (DEFER_OPERATION_REGEX_test operation); reflexivity.
Qed.

End Guards.

(** ** The extensions accumulator *)

Section Extensions.
Context {host : Host}.

Lemma isValid_truthy (v : value) : isValid v = true -> truthy v = true.
Proof. unfold isValid. intros H. now apply andb_prop in H as [H _]. Qed.

Lemma nullish_truthy (v prior : value) :
  truthy v = true -> nullish v prior = v.
Proof. destruct v; simpl; congruence. Qed.

Lemma toDatum_extensions (payload : value) (datum : Datum) :
  toDatum payload = Return datum ->
  datum_extensions datum = getKeyValueIfValid (get payload "extensions").
Proof.
  unfold toDatum.
  destruct (negb (destructurable payload)); [discriminate|].
  destruct (truthy (get payload "data") && truthy (get payload "path")).
  - destruct (pathOf (get payload "path")); [|discriminate].
    now intros [= <-].
  - now intros [= <-].
Qed.

Lemma toDatum_hasNext (payload : value) (datum : Datum) :
  toDatum payload = Return datum ->
  datum_hasNext datum = get payload "hasNext".
Proof.
  unfold toDatum.
  destruct (negb (destructurable payload)); [discriminate|].
  destruct (truthy (get payload "data") && truthy (get payload "path")).
  - destruct (pathOf (get payload "path")); [|discriminate].
    now intros [= <-].
  - now intros [= <-].
Qed.

Lemma mapOutcome_cons {A B : Type} (f : A -> Outcome B) (a : A) (l : list A)
  (bs : list B) :
  mapOutcome f (a :: l) = Return bs ->
  exists b bs', bs = b :: bs' /\ f a = Return b /\ mapOutcome f l = Return bs'.
Proof.
  simpl. destruct (f a) as [b|]; [|discriminate].
  destruct (mapOutcome f l) as [bs'|]; [|discriminate].
  intros [= <-]. now exists b, bs'.
Qed.

Lemma mapOutcome_length {A B : Type} (f : A -> Outcome B) (l : list A)
  (bs : list B) :
  mapOutcome f l = Return bs -> length bs = length l.
Proof.
  revert bs; induction l as [|a l IH]; intros bs.
  - now intros [= <-].
  - intros H. apply mapOutcome_cons in H as (b & bs' & -> & _ & H).
    simpl. f_equal. now apply IH.
Qed.

Lemma nextExtensions_first (payloads : list value) (dataArray : list Datum)
  (prior : value) :
  mapOutcome toDatum payloads = Return dataArray ->
  nextExtensions dataArray prior = firstOr prior (validExtensions payloads).
Proof.
  revert dataArray; induction payloads as [|payload rest IH]; intros dataArray.
  - now intros [= <-].
  - intros H. apply mapOutcome_cons in H as (datum & ds & -> & Hd & Hrest).
    specialize (IH ds Hrest).
    unfold nextExtensions in *. unfold validExtensions in *. simpl.
    rewrite (toDatum_extensions _ Hd). unfold getKeyValueIfValid.
    destruct (isValid (get payload "extensions")) eqn:V; simpl.
    + rewrite (isValid_truthy _ V). simpl.
      rewrite (toDatum_extensions _ Hd). unfold getKeyValueIfValid.
      rewrite V. simpl. now apply nullish_truthy, isValid_truthy.
    + exact IH.
Qed.

(** C4, as the code has it. For every batch whose payloads parse, the
    extensions accumulator becomes the first extensions object of the
    batch that is neither null nor empty, in the order of the payloads,
    and keeps its prior value when no payload of the batch carries one. *)
Theorem extensions_first_of_batch (st : StreamState) (chunkBodies : list text)
  (payloads : list value) (dataArray : list Datum) :
  mapOutcome parsePayload chunkBodies = Return payloads ->
  mapOutcome toDatum payloads = Return dataArray ->
  responseExtensions (fst (processBatch st chunkBodies))
  = firstOr (responseExtensions st) (validExtensions payloads).
Proof.
  intros Hp Hd. unfold processBatch. rewrite Hp, Hd.
  rewrite <- (nextExtensions_first _ _ Hd).
  destruct (filterOutcome _ _); [|reflexivity].
  destruct (last (map Some dataArray) None); [|reflexivity].
  destruct (0 <? length _)%nat; [reflexivity|].
  destruct (keyCount _ =? 0)%nat; reflexivity.
Qed.

End Extensions.

(** The theorem at the two-payload batch of the examples: the first
    extensions are kept. *)
Lemma extensions_first_of_batch_witness :
  responseExtensions
    (fst (processBatch (host := Example.host) initialState
            [t "{initial}"; t "{other}"]))
  = Example.context "EN".
Proof.
  rewrite (extensions_first_of_batch (host := Example.host) initialState
             [t "{initial}"; t "{other}"]
             (payloads := [Example.initialPart; Example.otherPart])
             (dataArray :=
                [{| datum_data := Example.shopId;
                    datum_errors := None;
                    datum_extensions := Some (Example.context "EN");
                    datum_hasNext := VBool true |};
                 {| datum_data := Example.shopId;
                    datum_errors := None;
                    datum_extensions := Some (Example.context "ja");
                    datum_hasNext := VBool true |}])
             eq_refl eq_refl).
  reflexivity.
Defined.

(** C4 as the specification words it fails: in a batch of two payloads
    that both carry extensions, the accumulator takes those of the first
    payload, not of the last one. *)
Lemma extensions_last_of_batch_fails :
  exists (payloads : list value) (dataArray : list Datum),
    mapOutcome (parsePayload (host := Example.host))
      [t "{initial}"; t "{other}"] = Return payloads
    /\ mapOutcome (toDatum (host := Example.host)) payloads = Return dataArray
    /\ last (validExtensions payloads) VUndefined = Example.context "ja"
    /\ responseExtensions
         (fst (processBatch (host := Example.host) initialState
                 [t "{initial}"; t "{other}"]))
       <> last (validExtensions payloads) VUndefined.
Proof.
  eexists; eexists.
  split; [reflexivity|]. split; [reflexivity|]. split; [reflexivity|].
  vm_compute. discriminate.
Qed.

(** ** Classification of a response by [request] *)

Section Request.
Context {host : Host}.

(** C1, as the code has it. For every response [fetch] gives to
    [request]: when it is not ok the result has only [errors], with the
    status, the label-prefixed status text and the response; when it is ok
    and its content type does not include [application/json], only
    [errors], with the unexpected-content-type message; otherwise the body
    is parsed, [data] and [extensions] are returned when they are truthy
    and not an empty object, and [errors] is populated exactly when the
    payload's [errors] is truthy or its [data] is falsy, with the status,
    the message of the case, [graphQLErrors] when valid, and the
    response. *)
Theorem request_classifies_response
  (fetch : string -> RequestOptions -> Async Response)
  (operation : string) (options : RequestOptions) (w w' : World)
  (r : Response) :
  DEFER_OPERATION_REGEX_test operation = false ->
  fetch operation options w = (Return r, w') ->
  (ok r = false ->
   generateRequest fetch operation options w
   = (Return (onlyErrors
                {| networkStatusCode := Some (status r);
                   message := Some (formatErrorMessage (statusText r));
                   graphQLErrors := None;
                   response := Some r |}), w'))
  /\ (ok r = true ->
      includes (contentTypeOf r) "application/json" = false ->
      generateRequest fetch operation options w
      = (Return (onlyErrors
                   {| networkStatusCode := Some (status r);
                      message :=
                        Some (formatErrorMessage
                                ("Response returned unexpected Content-Type: "
                                 ++ contentTypeOf r));
                      graphQLErrors := None;
                      response := Some r |}), w'))
  /\ (ok r = true ->
      includes (contentTypeOf r) "application/json" = true ->
      forall payload : value,
        json r = Return payload ->
        destructurable payload = true ->
        exists result : ClientResponse,
          generateRequest fetch operation options w = (Return result, w')
          /\ data result
             = (if isValid (get payload "data")
                then Some (get payload "data") else None)
          /\ extensions result
             = (if isValid (get payload "extensions")
                then Some (get payload "extensions") else None)
          /\ (errors result <> None <->
              truthy (get payload "errors") = true
              \/ truthy (get payload "data") = false)
          /\ (forall e : ResponseErrors,
                errors result = Some e ->
                networkStatusCode e = Some (status r)
                /\ message e
                   = Some (formatErrorMessage
                             (if truthy (get payload "errors")
                              then "An error occurred while fetching from the API. Review 'graphQLErrors' for details."
                              else "An unknown error has occurred. The API did not return a data object or any errors in its response."))
                /\ graphQLErrors e
                   = (if isValid (get payload "errors")
                      then Some (get payload "errors") else None)
                /\ response e = Some r)).
Proof.
  intros Hdefer Hfetch. unfold generateRequest, CONTENT_TYPES_json.
  rewrite Hdefer, Hfetch.
  split; [|split].
  - intros ->. reflexivity.
  - intros -> ->. reflexivity.
  - intros -> -> payload Hjson Hd. simpl.
    unfold processJSONResponse. rewrite Hjson, Hd. simpl.
    eexists. split; [reflexivity|]. simpl.
    split; [reflexivity|]. split; [reflexivity|].
    destruct (truthy (get payload "errors")) eqn:E;
      destruct (truthy (get payload "data")) eqn:D; simpl.
    all: split; [split; intros; try congruence; try tauto;
                 try (destruct H as [H|H]; discriminate)|].
    all: intros e [= <-]; simpl; auto.
Qed.

End Request.

(** The theorem at a 200 JSON response whose payload is [{data: {}}]. *)
Lemma request_classifies_response_witness :
  exists result : ClientResponse,
    generateRequest (host := Example.host)
      (Example.answering (Example.jsonResponse 200 "OK" true "{data:{}}"))
      Example.plainOperation noOptions emptyWorld
    = (Return result, emptyWorld)
    /\ data result = None /\ errors result = None.
Proof.
  destruct (request_classifies_response (host := Example.host)
              (Example.answering (Example.jsonResponse 200 "OK" true "{data:{}}"))
              Example.plainOperation noOptions emptyWorld
              eq_refl eq_refl) as (_ & _ & H).
  destruct (H eq_refl eq_refl (VObj [("data", VObj [])]) eq_refl eq_refl)
    as (result & Hrun & Hdata & _ & Herr & _).
  exists result. split; [exact Hrun|]. split; [exact Hdata|].
  destruct (errors result); [|reflexivity].
  exfalso. assert (X : Some r <> None) by discriminate.
  apply Herr in X. destruct X as [X|X]; discriminate X.
Defined.

(** C1 as the specification words it fails: a payload whose [data] is
    present, here the empty object, is parsed without error and the
    result carries no [data]. *)
Lemma request_drops_empty_data :
  exists (payload : value) (result : ClientResponse),
    json (host := Example.host)
      (Example.jsonResponse 200 "OK" true "{data:{}}") = Return payload
    /\ get payload "data" = VObj []
    /\ generateRequest (host := Example.host)
         (Example.answering (Example.jsonResponse 200 "OK" true "{data:{}}"))
         Example.plainOperation noOptions emptyWorld
       = (Return result, emptyWorld)
    /\ data result <> Some (get payload "data").
Proof.
  eexists; eexists.
  split; [reflexivity|]. split; [reflexivity|]. split; [reflexivity|].
  vm_compute. discriminate.
Qed.

(** ** Invalid [retries] *)

Section InvalidRetries.
Context {host : Host}.

Lemma invalidRetriesMessage_spelled (n : Z) :
  invalidRetriesMessage CLIENT n = validationMessage n.
Proof. reflexivity. Qed.

Lemma formatErrorMessage_validation (n : Z) :
  formatErrorMessage (validationMessage n) = validationMessage n.
Proof. reflexivity. Qed.

Lemma validateRetries_invalid (n : Z) :
  n < 0 \/ 3 < n ->
  validateRetries CLIENT (Some n) = Throw (mkError (validationMessage n)).
Proof.
  intros H. unfold validateRetries, MIN_RETRIES, MAX_RETRIES.
  destruct (Z.ltb_spec n 0); [reflexivity|].
  destruct (Z.gtb_spec n 3); [reflexivity|lia].
Qed.

Lemma validateRetries_valid (n : Z) :
  0 <= n <= 3 -> validateRetries CLIENT (Some n) = Return tt.
Proof.
  intros H. unfold validateRetries, MIN_RETRIES, MAX_RETRIES.
  destruct (Z.ltb_spec n 0); [lia|].
  destruct (Z.gtb_spec n 3); [lia|reflexivity].
Qed.

Lemma generateFetch_invalid
  (httpFetch : RequestParams -> Z -> Z -> Async Response) (cfg : ClientConfig)
  (operation : string) (options : RequestOptions) (w : World) (n : Z) :
  req_retries options = Some n ->
  n < 0 \/ 3 < n ->
  generateFetch httpFetch cfg operation options w
  = (Throw (mkError (validationMessage n)), w).
Proof.
  intros Hn Hbad. unfold generateFetch.
  now rewrite Hn, (validateRetries_invalid Hbad).
Qed.

(** C8, as the code has it. For every call whose [retries] option lies
    outside [[0, 3]]: [fetch] throws the exact validation message;
    [request] catches it and returns an object whose only property is
    [errors], with that message and nothing else; [requestStream] returns
    a stream whose first and only snapshot has that message and
    [hasNext: false]. None of them touches the world. *)
Theorem invalid_retries_surfacing
  (httpFetch : RequestParams -> Z -> Z -> Async Response) (cfg : ClientConfig)
  (operation : string) (options : RequestOptions) (w : World) (n : Z) :
  req_retries options = Some n ->
  n < 0 \/ 3 < n ->
  generateFetch httpFetch cfg operation options w
  = (Throw (mkError (validationMessage n)), w)
  /\ (DEFER_OPERATION_REGEX_test operation = false ->
      generateRequest (generateFetch httpFetch cfg) operation options w
      = (Return (onlyErrors
                   {| networkStatusCode := None;
                      message := Some (validationMessage n);
                      graphQLErrors := None;
                      response := None |}), w))
  /\ (DEFER_OPERATION_REGEX_test operation = true ->
      generateRequestStream (generateFetch httpFetch cfg) operation options w
      = (Return
           {| yielded :=
                [{| fields :=
                      onlyErrors
                        {| networkStatusCode := None;
                           message := Some (validationMessage n);
                           graphQLErrors := None;
                           response := None |};
                    hasNext := VBool false |}];
              thrown := None |}, w)).
Proof.
  intros Hn Hbad.
  pose proof (generateFetch_invalid httpFetch cfg operation options w Hn Hbad)
    as Hfetch.
  split; [exact Hfetch|]. split; intros Hdefer.
  - unfold generateRequest. now rewrite Hdefer, Hfetch.
  - unfold generateRequestStream. rewrite Hdefer, Hfetch. simpl.
    unfold failedStream. simpl. now rewrite formatErrorMessage_validation.
Qed.

End InvalidRetries.

(** The theorem at [retries: -1]. *)
Lemma invalid_retries_surfacing_witness :
  generateRequest (host := Example.host)
    (generateFetch (httpFetch Example.aborted true) Example.abortingConfig)
    Example.plainOperation (Example.withRetries (-1)) emptyWorld
  = (Return (onlyErrors
               {| networkStatusCode := None;
                  message := Some (validationMessage (-1));
                  graphQLErrors := None;
                  response := None |}), emptyWorld).
Proof.
  apply (invalid_retries_surfacing (host := Example.host)
           (httpFetch Example.aborted true) Example.abortingConfig
           Example.plainOperation (Example.withRetries (-1)) emptyWorld
           eq_refl (or_introl eq_refl)).
  reflexivity.
Defined.

(** C8 as the specification words it fails: with [retries: -1], [request]
    does not throw; it returns a response object. *)
Lemma request_returns_on_invalid_retries :
  exists (client : GraphQLClient) (result : ClientResponse),
    createGraphQLClient (host := Example.host)
      (Example.clientOptions Example.aborted None) = Return client
    /\ request client Example.plainOperation (Example.withRetries (-1))
         emptyWorld
       = (Return result, emptyWorld)
    /\ (forall e : Error,
          request client Example.plainOperation (Example.withRetries (-1))
            emptyWorld
          <> (Throw e, emptyWorld)).
Proof.
  eexists; eexists.
  split; [reflexivity|]. split; [reflexivity|].
  intros e. discriminate.
Qed.

(** ** Batches of the multipart parser *)

Section Batches.
Context {host : Host}.

Lemma readStep_nonempty (boundary buffer textChunk buffer' : text)
  (chunkBodies : list text) :
  readStep boundary buffer textChunk = (Some chunkBodies, buffer') ->
  chunkBodies <> [].
Proof.
  unfold readStep.
  destruct (indexOf (buffer ++ textChunk) boundary >? -1); [|discriminate].
  destruct (0 <? length (chunkBodiesOf _ boundary))%nat eqn:L; [|discriminate].
  intros [= <- _] E. now rewrite E in L.
Qed.

Lemma readFrom_nonempty (boundary buffer : text) (textChunks : list text) :
  Forall (fun chunkBodies => chunkBodies <> [])
    (readFrom boundary buffer textChunks).
Proof.
  revert buffer; induction textChunks as [|c rest IH]; intros buffer; simpl.
  - constructor.
  - destruct (readStep boundary buffer c) as [[chunkBodies|] buffer'] eqn:E.
    + constructor; [|apply IH]. eapply readStep_nonempty, E.
    + apply IH.
Qed.

Lemma last_defined {A : Type} (l : list A) :
  l <> [] -> exists x, last (map Some l) None = Some x /\ In x l.
Proof.
  induction l as [|a [|b l] IH]; intros H.
  - contradiction.
  - exists a. simpl. auto.
  - destruct IH as (x & Hx & Hin); [discriminate|].
    exists x. split; [exact Hx|now right].
Qed.

(** C10. Every batch the multipart parser yields is a non-empty list, so
    whenever its bodies parse, the merger finds a last payload from which
    to read [hasNext]. *)
Theorem parser_batches_nonempty (source : ChunkSource) (boundary : text) :
  Forall
    (fun chunkBodies =>
       chunkBodies <> []
       /\ forall (payloads : list value) (dataArray : list Datum),
            mapOutcome parsePayload chunkBodies = Return payloads ->
            mapOutcome toDatum payloads = Return dataArray ->
            exists lastDatum,
              last (map Some dataArray) None = Some lastDatum
              /\ In lastDatum dataArray)
    (yielded (readStreamChunk source boundary)).
Proof.
  simpl. eapply Forall_impl; [|apply readFrom_nonempty].
  intros chunkBodies Hne. split; [exact Hne|].
  intros payloads dataArray Hp Hd. apply last_defined.
  apply mapOutcome_length in Hp, Hd.
  destruct dataArray; [|discriminate].
  destruct chunkBodies; [contradiction|]. simpl in *. lia.
Qed.

End Batches.

(** ** The retry executor *)

Section Retry.
Variable customFetchApi : CustomFetchApi.
Variable logger : bool.
Variable requestParams : RequestParams.

(** One attempt of [httpFetch], with its continuation. *)
Lemma httpFetch_step (attempt maxRetries : Z) (w : World) :
  httpFetch customFetchApi logger requestParams attempt maxRetries w
  = match callTransport customFetchApi requestParams w with
    | (Rejected error, w1) =>
        if attempt <=? maxRetries
        then httpFetch customFetchApi logger requestParams (attempt + 1)
               maxRetries
               (beforeRetry logger requestParams None attempt maxRetries w1)
        else (Throw (mkError (exhaustedMessage maxRetries
                                (getErrorMessage error))), w1)
    | (Resolved r, w1) =>
        if retriable r
        then if attempt <=? maxRetries
             then httpFetch customFetchApi logger requestParams (attempt + 1)
                    maxRetries
                    (beforeRetry logger requestParams (Some r) attempt
                       maxRetries w1)
             else (Return r, w1)
        else (Return r,
              clientLogger logger (HTTPResponseLog requestParams r) w1)
    end.
Proof.
  simp httpFetch.
  destruct (callTransport customFetchApi requestParams w) as [[r|e] w1];
    simpl.
  - destruct (retriable r); simpl; [|reflexivity].
    destruct (Z_le_gt_dec attempt maxRetries) as [L|G]; simpl;
      destruct (Z.leb_spec attempt maxRetries); try reflexivity; lia.
  - destruct (Z_le_gt_dec attempt maxRetries) as [L|G]; simpl;
      destruct (Z.leb_spec attempt maxRetries); try reflexivity; lia.
Qed.

Lemma calls_clientLogger (e : LogContentTypes) (w : World) :
  calls (clientLogger logger e w) = calls w.
Proof. unfold clientLogger. now destruct logger. Qed.

Lemma calls_beforeRetry (last : option Response) (attempt maxRetries : Z)
  (w : World) :
  calls (beforeRetry logger requestParams last attempt maxRetries w) = calls w.
Proof. unfold beforeRetry, sleep. simpl. apply calls_clientLogger. Qed.

Lemma retriable_status (r : Response) :
  retriable r = true <-> status r = 429 \/ status r = 503.
Proof.
  unfold retriable, RETRIABLE_STATUS_CODES. simpl.
  rewrite !orb_true_iff, !Z.eqb_eq. intuition congruence.
Qed.

(** The calls one run of [httpFetch] adds: at least one, at most one more
    than the retries that remain, all with the same parameters. *)
Lemma httpFetch_calls (attempt maxRetries : Z) (w : World) :
  exists extra : list RequestParams,
    calls (snd (httpFetch customFetchApi logger requestParams attempt
                  maxRetries w))
    = calls w ++ extra
    /\ (1 <= length extra)%nat
    /\ Z.of_nat (length extra) <= 1 + Z.max 0 (maxRetries + 1 - attempt)
    /\ Forall (eq requestParams) extra.
Proof.
  remember (Z.to_nat (maxRetries + 1 - attempt)) as d eqn:Hd.
  revert attempt w Hd.
  induction d as [|d IH]; intros attempt w Hd; rewrite httpFetch_step;
    unfold callTransport;
    destruct (customFetchApi (length (calls w)) requestParams) as [r|e].
  all: try destruct (retriable r).
  all: destruct (Z.leb_spec attempt maxRetries) as [L|G]; try lia.
  all: try (exists [requestParams]; cbn [snd]; rewrite ?calls_clientLogger;
            cbn [calls length];
            split; [reflexivity|split; [lia|split; [lia|repeat constructor]]]).
  all: match goal with
       | |- context [httpFetch _ _ _ (_ + 1) _ ?w1] =>
           destruct (IH (attempt + 1) w1 ltac:(lia))
             as (extra & -> & H1 & H2 & H3)
       end.
  all: exists (requestParams :: extra); rewrite calls_beforeRetry;
    cbn [calls length].
  all: rewrite <- app_assoc; cbn [app].
  all: split; [reflexivity|split; [lia|split; [lia|now constructor]]].
Qed.

(** When every attempt calls for a retry, all the attempts of the budget
    are made, and the result of the last one is surfaced. *)
Lemma httpFetch_exhausts (d : nat) (attempt maxRetries : Z) (w : World) :
  Z.of_nat d = maxRetries + 1 - attempt ->
  (forall k : nat, (k <= d)%nat ->
     callsForRetry (customFetchApi (length (calls w) + k)%nat requestParams)) ->
  fst (httpFetch customFetchApi logger requestParams attempt maxRetries w)
  = surfaced maxRetries
      (customFetchApi (length (calls w) + d)%nat requestParams)
  /\ length (calls (snd (httpFetch customFetchApi logger requestParams attempt
                          maxRetries w)))
     = (length (calls w) + d + 1)%nat.
Proof.
  revert attempt w; induction d as [|d IH]; intros attempt w Hd Hall;
    rewrite httpFetch_step; unfold callTransport.
  - specialize (Hall 0%nat (Nat.le_refl _)). rewrite Nat.add_0_r in *.
    destruct (customFetchApi (length (calls w)) requestParams) as [r|e].
    + apply retriable_status in Hall. rewrite Hall.
      destruct (Z.leb_spec attempt maxRetries); [lia|]. simpl.
      rewrite length_app. simpl. split; [reflexivity|lia].
    + destruct (Z.leb_spec attempt maxRetries); [lia|]. simpl.
      rewrite length_app. simpl. split; [reflexivity|lia].
  - pose proof (Hall 0%nat ltac:(lia)) as H0. rewrite Nat.add_0_r in H0.
    assert (Hrest : forall last w1,
              calls w1 = calls w ++ [requestParams] ->
              forall k : nat, (k <= d)%nat ->
                callsForRetry
                  (customFetchApi
                     (length (calls (beforeRetry logger requestParams last
                                       attempt maxRetries w1)) + k)%nat
                     requestParams)).
    { intros last w1 Hw1 k Hk. rewrite calls_beforeRetry, Hw1, length_app.
      simpl. replace (length (calls w) + 1 + k)%nat
        with (length (calls w) + S k)%nat by lia.
      apply Hall. lia. }
    assert (Hlen : forall last w1,
              calls w1 = calls w ++ [requestParams] ->
              (length (calls (beforeRetry logger requestParams last attempt
                                maxRetries w1)) + d)%nat
              = (length (calls w) + S d)%nat).
    { intros last w1 Hw1. rewrite calls_beforeRetry, Hw1, length_app.
      simpl. lia. }
    destruct (customFetchApi (length (calls w)) requestParams) as [r|e].
    + apply retriable_status in H0. rewrite H0.
      destruct (Z.leb_spec attempt maxRetries); [|lia].
      match goal with
      | |- context [beforeRetry _ _ _ _ _ ?w0] =>
          destruct (IH (attempt + 1)
                      (beforeRetry logger requestParams (Some r) attempt
                         maxRetries w0)
                      ltac:(lia) (Hrest (Some r) w0 eq_refl)) as [-> ->];
          rewrite (Hlen (Some r) w0 eq_refl)
      end.
      split; [reflexivity|lia].
    + destruct (Z.leb_spec attempt maxRetries); [|lia].
      match goal with
      | |- context [beforeRetry _ _ _ _ _ ?w0] =>
          destruct (IH (attempt + 1)
                      (beforeRetry logger requestParams None attempt
                         maxRetries w0)
                      ltac:(lia) (Hrest None w0 eq_refl)) as [-> ->];
          rewrite (Hlen None w0 eq_refl)
      end.
      split; [reflexivity|lia].
Qed.

Lemma string_app_assoc (a b c : string) :
  ((a ++ b) ++ c = a ++ (b ++ c))%string.
Proof. induction a as [|x a IH]; simpl; [reflexivity|now rewrite IH]. Qed.

(** The message of an exhausted transport, spelled out. *)
Lemma exhaustedMessage_spelled (maxRetries : Z) (lastMessage : string) :
  (0 < maxRetries ->
   exhaustedMessage maxRetries lastMessage
   = ("GraphQL Client: Attempted maximum number of " ++ showZ maxRetries
      ++ " network retries. Last message - " ++ lastMessage)%string)
  /\ (maxRetries = 0 ->
      exhaustedMessage maxRetries lastMessage
      = formatErrorMessage lastMessage).
Proof.
  unfold exhaustedMessage. split.
  - intros H. destruct (Z.ltb_spec 0 maxRetries); [|lia].
    rewrite !string_app_assoc. reflexivity.
  - intros ->. reflexivity.
Qed.

Lemma sleeps_beforeRetry (last : option Response) (attempt maxRetries : Z)
  (w : World) :
  sleeps (beforeRetry logger requestParams last attempt maxRetries w)
  = sleeps w ++ [RETRY_WAIT_TIME].
Proof. unfold beforeRetry, sleep, clientLogger. now destruct logger. Qed.

(** While the attempts call for a retry and the budget lasts, [httpFetch]
    goes on: each such attempt is one call and one sleep. *)
Lemma httpFetch_retries (k : nat) (attempt maxRetries : Z) (w : World) :
  attempt + Z.of_nat k <= maxRetries + 1 ->
  (forall i : nat, (i < k)%nat ->
     callsForRetry (customFetchApi (length (calls w) + i)%nat requestParams)) ->
  exists w1 : World,
    httpFetch customFetchApi logger requestParams attempt maxRetries w
    = httpFetch customFetchApi logger requestParams (attempt + Z.of_nat k)
        maxRetries w1
    /\ calls w1 = calls w ++ repeat requestParams k
    /\ sleeps w1 = sleeps w ++ repeat RETRY_WAIT_TIME k.
Proof.
  revert attempt w; induction k as [|k IH]; intros attempt w Hk Hall.
  - exists w. simpl. rewrite Z.add_0_r, !app_nil_r. auto.
  - pose proof (Hall 0%nat ltac:(lia)) as H0. rewrite Nat.add_0_r in H0.
    rewrite httpFetch_step. unfold callTransport.
    assert (Hnext : forall (last : option Response) (w0 : World),
               calls w0 = calls w ++ [requestParams] ->
               sleeps w0 = sleeps w ->
               exists w1 : World,
                 httpFetch customFetchApi logger requestParams (attempt + 1)
                   maxRetries
                   (beforeRetry logger requestParams last attempt maxRetries
                      w0)
                 = httpFetch customFetchApi logger requestParams
                     (attempt + Z.of_nat (S k)) maxRetries w1
                 /\ calls w1 = calls w ++ repeat requestParams (S k)
                 /\ sleeps w1 = sleeps w ++ repeat RETRY_WAIT_TIME (S k)).
    { intros last w0 Hcalls Hsleeps.
      destruct (IH (attempt + 1)
                  (beforeRetry logger requestParams last attempt maxRetries
                     w0)) as (w1 & Hrun & Hc & Hs).
      - lia.
      - intros i Hi. rewrite calls_beforeRetry, Hcalls, length_app. simpl.
        replace (length (calls w) + 1 + i)%nat
          with (length (calls w) + S i)%nat by lia.
        apply Hall. lia.
      - exists w1. rewrite Hrun.
        replace (attempt + 1 + Z.of_nat k) with (attempt + Z.of_nat (S k))
          by lia.
        split; [reflexivity|].
        rewrite Hc, Hs, calls_beforeRetry, sleeps_beforeRetry, Hcalls,
          Hsleeps, <- !app_assoc.
        split; reflexivity. }
    destruct (customFetchApi (length (calls w)) requestParams) as [r|e].
    + apply retriable_status in H0. rewrite H0.
      destruct (Z.leb_spec attempt maxRetries); [|lia].
      now apply Hnext.
    + destruct (Z.leb_spec attempt maxRetries); [|lia].
      now apply Hnext.
Qed.

Lemma repeat_snoc {A : Type} (a : A) (n : nat) :
  repeat a n ++ [a] = repeat a (n + 1).
Proof. now rewrite repeat_app. Qed.

End Retry.

(** C6, as the code has it. For a request run with a budget of
    [maxRetries] retries, whatever the transport answers: as long as the
    attempts fail or are answered 429 or 503 and the budget lasts, the
    request is made again, after a sleep of the retry wait time; a
    response of any other status is returned at once, at whichever attempt
    it comes, and no further request is made; when the budget is used up,
    a response of status 429 or 503 is returned, not thrown, and a failure
    of the transport is thrown, with a message that is the client label
    followed by [Attempted maximum number of <maxRetries> network retries.
    Last message - ] and the failure's message when [maxRetries] is
    positive, and the label-prefixed message of the failure alone when it
    is 0. Here [k] counts the attempts that called for a retry, and the
    run makes [k + 1] requests and sleeps [k] times. *)
Theorem retry_executor_surfacing (customFetchApi : CustomFetchApi)
  (logger : bool) (requestParams : RequestParams) (maxRetries : Z)
  (w : World) (k : nat) :
  Z.of_nat k <= maxRetries ->
  (forall i : nat, (i < k)%nat ->
     callsForRetry (customFetchApi (length (calls w) + i)%nat requestParams)) ->
  (forall r : Response,
     customFetchApi (length (calls w) + k)%nat requestParams = Resolved r ->
     status r <> 429 -> status r <> 503 ->
     fst (httpFetch customFetchApi logger requestParams 1 maxRetries w)
     = Return r
     /\ calls (snd (httpFetch customFetchApi logger requestParams 1
                      maxRetries w))
        = calls w ++ repeat requestParams (k + 1)
     /\ sleeps (snd (httpFetch customFetchApi logger requestParams 1
                       maxRetries w))
        = sleeps w ++ repeat RETRY_WAIT_TIME k)
  /\ (Z.of_nat k = maxRetries ->
      forall r : Response,
        customFetchApi (length (calls w) + k)%nat requestParams = Resolved r ->
        status r = 429 \/ status r = 503 ->
        fst (httpFetch customFetchApi logger requestParams 1 maxRetries w)
        = Return r
        /\ calls (snd (httpFetch customFetchApi logger requestParams 1
                         maxRetries w))
           = calls w ++ repeat requestParams (k + 1)
        /\ sleeps (snd (httpFetch customFetchApi logger requestParams 1
                          maxRetries w))
           = sleeps w ++ repeat RETRY_WAIT_TIME k)
  /\ (Z.of_nat k = maxRetries ->
      forall e : Error,
        customFetchApi (length (calls w) + k)%nat requestParams = Rejected e ->
        fst (httpFetch customFetchApi logger requestParams 1 maxRetries w)
        = Throw (mkError
                   (if 0 <? maxRetries
                    then ("GraphQL Client: Attempted maximum number of "
                          ++ showZ maxRetries
                          ++ " network retries. Last message - "
                          ++ error_message e)%string
                    else formatErrorMessage (error_message e)))
        /\ calls (snd (httpFetch customFetchApi logger requestParams 1
                         maxRetries w))
           = calls w ++ repeat requestParams (k + 1)
        /\ sleeps (snd (httpFetch customFetchApi logger requestParams 1
                          maxRetries w))
           = sleeps w ++ repeat RETRY_WAIT_TIME k).
Proof.
  intros Hk Hall.
  destruct (@httpFetch_retries customFetchApi logger requestParams k 1
              maxRetries w ltac:(lia) Hall) as (w1 & -> & Hcalls & Hsleeps).
  rewrite httpFetch_step. unfold callTransport. rewrite Hcalls, length_app,
    repeat_length.
  split; [|split].
  - intros r -> H429 H503.
    destruct (retriable r) eqn:E; [apply retriable_status in E; tauto|].
    cbn [fst snd]. unfold clientLogger.
    destruct logger; cbn [calls sleeps];
      now rewrite <- app_assoc, repeat_snoc, Hsleeps.
  - intros Hlast r -> Hstatus. apply retriable_status in Hstatus.
    rewrite Hstatus. destruct (Z.leb_spec (1 + Z.of_nat k) maxRetries); [lia|].
    cbn [fst snd calls sleeps].
    now rewrite <- app_assoc, repeat_snoc, Hsleeps.
  - intros Hlast e ->.
    destruct (Z.leb_spec (1 + Z.of_nat k) maxRetries); [lia|].
    cbn [fst snd calls sleeps]. rewrite <- app_assoc, repeat_snoc, Hsleeps.
    split; [|split; reflexivity]. do 2 f_equal. unfold getErrorMessage.
    destruct (Z.ltb_spec 0 maxRetries) as [Hpos|Hzero].
    + apply exhaustedMessage_spelled; assumption.
    + apply exhaustedMessage_spelled; lia.
Qed.

(** ** Attempts of the entry points *)

Section Attempts.
Context {host : Host}.

Lemma createGraphQLClient_inv (options : ClientOptions)
  (client : GraphQLClient) :
  createGraphQLClient options = Return client ->
  exists (api : CustomFetchApi),
    0 <= cfg_retries (config client) <= 3
    /\ fetch client
       = generateFetch (httpFetch api (opt_logger options)) (config client)
    /\ request client = generateRequest (fetch client)
    /\ requestStream client = generateRequestStream (fetch client).
Proof.
  unfold createGraphQLClient.
  set (retries := match opt_retries options with
                  | Some n => n
                  | None => 0
                  end).
  destruct (Z_le_gt_dec 0 retries) as [L|G];
    [destruct (Z_le_gt_dec retries 3) as [L'|G']|].
  - rewrite validateRetries_valid by lia. intros [= <-]. simpl.
    eexists. repeat split; try reflexivity; assumption.
  - rewrite validateRetries_invalid by lia. discriminate.
  - rewrite validateRetries_invalid by lia. discriminate.
Qed.

(** A client is not created with retries outside the range. *)
Lemma createGraphQLClient_invalid (options : ClientOptions) (n : Z) :
  opt_retries options = Some n ->
  n < 0 \/ 3 < n ->
  createGraphQLClient options = Throw (mkError (validationMessage n)).
Proof.
  intros Hn Hbad. unfold createGraphQLClient. rewrite Hn.
  now rewrite validateRetries_invalid.
Qed.

Lemma validateRetries_none : validateRetries CLIENT None = Return tt.
Proof. reflexivity. Qed.

Lemma generateFetch_attempts (api : CustomFetchApi) (logger : bool)
  (cfg : ClientConfig) (operation : string) (options : RequestOptions)
  (w : World) :
  0 <= cfg_retries cfg <= 3 ->
  (~ 0 <= effectiveRetries cfg options <= 3 ->
   snd (generateFetch (httpFetch api logger) cfg operation options w) = w)
  /\ (0 <= effectiveRetries cfg options <= 3 ->
      0 <= attempts w
             (snd (generateFetch (httpFetch api logger) cfg operation options
                     w))
        <= 1 + effectiveRetries cfg options).
Proof.
  intros Hcfg. unfold generateFetch, effectiveRetries, attempts.
  destruct (req_retries options) as [n|].
  - split; intros Hn.
    + rewrite validateRetries_invalid by lia. reflexivity.
    + rewrite validateRetries_valid by lia.
      match goal with
      | |- context [httpFetch api logger ?p 1 n w] =>
          destruct (httpFetch_calls api logger p 1 n w)
            as (extra & -> & H1 & H2 & _)
      end.
      rewrite length_app. lia.
  - split; intros Hn; [contradiction|]. rewrite validateRetries_none.
    match goal with
    | |- context [httpFetch api logger ?p 1 ?n w] =>
        destruct (httpFetch_calls api logger p 1 n w)
          as (extra & -> & H1 & H2 & _)
    end.
    rewrite length_app. lia.
Qed.

(** [request] and [requestStream] leave the world as their guard found
    it, or as their one call of [fetch] left it. *)
Lemma generateRequest_world
  (fetch : string -> RequestOptions -> Async Response)
  (operation : string) (options : RequestOptions) (w : World) :
  snd (generateRequest fetch operation options w) = w
  \/ snd (generateRequest fetch operation options w)
     = snd (fetch operation options w).
Proof.
  unfold generateRequest.
  destruct (DEFER_OPERATION_REGEX_test operation); [now left|right].
  destruct (fetch operation options w) as [[r|e] w']; [|reflexivity].
  destruct (negb (ok r)); [reflexivity|].
  destruct (negb (includes _ _)); reflexivity.
Qed.

Lemma generateRequestStream_world
  (fetch : string -> RequestOptions -> Async Response)
  (operation : string) (options : RequestOptions) (w : World) :
  snd (generateRequestStream fetch operation options w) = w
  \/ snd (generateRequestStream fetch operation options w)
     = snd (fetch operation options w).
Proof.
  unfold generateRequestStream.
  destruct (negb (DEFER_OPERATION_REGEX_test operation)); [now left|right].
  destruct (fetch operation options w) as [[r|e] w']; [|reflexivity].
  destruct (negb (ok r)); [reflexivity|].
  destruct (forallb _ _); [reflexivity|].
  destruct (includes _ _); [reflexivity|].
  destruct (body r); reflexivity.
Qed.

Lemma attempts_refl (w : World) : attempts w w = 0.
Proof. unfold attempts. lia. Qed.

(** C7. For every call of an entry point of a client that was created,
    with effective retries [n] (the option of the call, else the retries
    of the client): when [n] is outside [[0, 3]] the calls made to the
    transport are unchanged, so no HTTP request is issued; when it is
    inside, at most [1 + n] HTTP requests are issued. *)
Theorem retries_bound_attempts (options : ClientOptions)
  (client : GraphQLClient) (operation : string) (reqOptions : RequestOptions)
  (w : World) :
  createGraphQLClient options = Return client ->
  (~ 0 <= effectiveRetries (config client) reqOptions <= 3 ->
   calls (snd (fetch client operation reqOptions w)) = calls w
   /\ calls (snd (request client operation reqOptions w)) = calls w
   /\ calls (snd (requestStream client operation reqOptions w)) = calls w)
  /\ (0 <= effectiveRetries (config client) reqOptions <= 3 ->
      attempts w (snd (fetch client operation reqOptions w))
      <= 1 + effectiveRetries (config client) reqOptions
      /\ attempts w (snd (request client operation reqOptions w))
         <= 1 + effectiveRetries (config client) reqOptions
      /\ attempts w (snd (requestStream client operation reqOptions w))
         <= 1 + effectiveRetries (config client) reqOptions).
Proof.
  intros Hclient.
  destruct (createGraphQLClient_inv _ Hclient)
    as (api & Hcfg & Hfetch & Hrequest & Hstream).
  destruct (generateFetch_attempts api (opt_logger options) (config client)
              operation reqOptions w Hcfg) as [Hbad Hgood].
  rewrite <- Hfetch in Hbad, Hgood.
  split; intros Hn.
  - specialize (Hbad Hn). rewrite Hrequest, Hstream.
    split; [now rewrite Hbad|]. split.
    + destruct (generateRequest_world (fetch client) operation reqOptions w)
        as [-> | ->]; [reflexivity|now rewrite Hbad].
    + destruct (generateRequestStream_world (fetch client) operation
                  reqOptions w) as [-> | ->]; [reflexivity|now rewrite Hbad].
  - specialize (Hgood Hn). rewrite Hrequest, Hstream.
    split; [lia|]. split.
    + destruct (generateRequest_world (fetch client) operation reqOptions w)
        as [-> | ->]; [rewrite attempts_refl|]; lia.
    + destruct (generateRequestStream_world (fetch client) operation
                  reqOptions w) as [-> | ->]; [rewrite attempts_refl|]; lia.
Qed.

End Attempts.

(** The theorem at a transport that answers 429 and then 200, with a
    budget of two retries: one retry, two requests, one sleep. *)
Lemma retry_executor_surfacing_witness :
  fst (httpFetch Example.busyOnce true Example.exampleParams 1 2 emptyWorld)
  = Return (Example.jsonResponse 200 "OK" true "{}")
  /\ calls (snd (httpFetch Example.busyOnce true Example.exampleParams 1 2
                   emptyWorld))
     = [Example.exampleParams; Example.exampleParams]
  /\ sleeps (snd (httpFetch Example.busyOnce true Example.exampleParams 1 2
                    emptyWorld))
     = [1000].
Proof.
  assert (Hfirst : forall i : nat, (i < 1)%nat ->
            callsForRetry
              (Example.busyOnce (length (calls emptyWorld) + i)%nat
                 Example.exampleParams)).
  { intros [|i] Hi; [now left|lia]. }
  destruct (retry_executor_surfacing Example.busyOnce true
              Example.exampleParams (maxRetries := 2) emptyWorld (k := 1)
              ltac:(lia) Hfirst) as [Hreturned _].
  exact (Hreturned (Example.jsonResponse 200 "OK" true "{}") eq_refl
           ltac:(discriminate) ltac:(discriminate)).
Defined.

(** C6 as the specification words it fails: the message of an exhausted
    transport starts with the client label, and with no retry budget it
    is the label-prefixed message of the failure alone. *)
Lemma exhausted_message_not_attempted_first :
  exists e0 e2 : Error,
    fst (httpFetch Example.aborted true Example.exampleParams 1 0 emptyWorld)
    = Throw e0
    /\ error_message e0 = "GraphQL Client: The operation was aborted."
    /\ String.prefix
         "Attempted maximum number of 0 network retries. Last message - "
         (error_message e0) = false
    /\ fst (httpFetch Example.aborted true Example.exampleParams 1 2 emptyWorld)
       = Throw e2
    /\ String.prefix
         "Attempted maximum number of 2 network retries. Last message - "
         (error_message e2) = false.
Proof.
  eexists; eexists.
  split; [reflexivity|]. split; [reflexivity|]. split; [reflexivity|].
  split; reflexivity.
Qed.

(** The theorem at a client created without retries and a call that asks
    for two. *)
Lemma retries_bound_attempts_witness :
  exists client : GraphQLClient,
    createGraphQLClient (host := Example.host)
      (Example.clientOptions Example.aborted None) = Return client
    /\ attempts emptyWorld
         (snd (fetch client Example.plainOperation (Example.withRetries 2)
                 emptyWorld))
       <= 1 + 2.
Proof.
  eexists. split; [reflexivity|].
  refine (proj1 (proj2 (retries_bound_attempts (host := Example.host)
                          (Example.clientOptions Example.aborted None)
                          Example.plainOperation (Example.withRetries 2)
                          emptyWorld eq_refl) _)).
  split; discriminate.
Defined.

(** Scenario S4: every fetch aborts, two retries: three calls, two sleeps
    of 1000 ms, two retry events. *)
Example aborted_all_the_way :
  exists client : GraphQLClient,
    createGraphQLClient (host := Example.host)
      (Example.clientOptions Example.aborted None) = Return client
    /\ length (calls (snd (fetch client Example.plainOperation
                             (Example.withRetries 2) emptyWorld))) = 3%nat
    /\ sleeps (snd (fetch client Example.plainOperation
                      (Example.withRetries 2) emptyWorld)) = [1000; 1000]
    /\ length (logs (snd (fetch client Example.plainOperation
                            (Example.withRetries 2) emptyWorld))) = 2%nat.
Proof. eexists. repeat split; reflexivity. Qed.

(** Scenario S3: every answer is a 503, one retry: two calls, and
    [request] turns the last response into an error object. *)
Example exhausted_503 :
  exists (client : GraphQLClient) (e : ResponseErrors),
    createGraphQLClient (host := Example.host)
      (Example.clientOptions
         (Example.always
            (Example.jsonResponse 503 "Service Unavailable" false "{}"))
         (Some 1)) = Return client
    /\ errors (match fst (request client Example.plainOperation noOptions
                            emptyWorld) with
               | Return result => result
               | Throw _ => onlyErrors e
               end) = Some e
    /\ networkStatusCode e = Some 503
    /\ message e = Some "GraphQL Client: Service Unavailable"
    /\ length (calls (snd (request client Example.plainOperation noOptions
                             emptyWorld))) = 2%nat.
Proof. eexists; eexists. repeat split; reflexivity. Qed.

(** ** Framing of the multipart body *)

Section Framing.

Lemma find_sub_app (s sep : text) (i : nat) :
  find_sub s sep = Some i ->
  s = firstn i s ++ sep ++ skipn (i + length sep) s.
Proof.
  revert i; induction s as [|d s IH]; intros i; simpl.
  - destruct (startsWith [] sep) eqn:E; [|discriminate].
    intros [= <-]; simpl. now apply startsWith_app in E.
  - destruct (startsWith (d :: s) sep) eqn:E.
    + intros [= <-]. now apply startsWith_app in E.
    + destruct (find_sub s sep) as [j|] eqn:F; simpl; [|discriminate].
      intros [= <-]; simpl. f_equal. now apply IH.
Qed.


Lemma find_sub_find_last (s sep : text) (i : nat) :
  find_sub s sep = Some i -> exists j, find_last s sep = Some j.
Proof.
  revert i; induction s as [|d s IH]; intros i; simpl.
  - destruct (startsWith [] sep); [eauto|discriminate].
  - destruct (startsWith (d :: s) sep) eqn:E.
    + intros _. destruct (find_last s sep); eauto.
    + destruct (find_sub s sep) as [j|]; [|discriminate].
      intros _. destruct (IH j eq_refl) as (k & ->). eauto.
Qed.


Lemma slice_from (s : text) (n : nat) :
  slice s (Z.of_nat n) None = skipn n s.
Proof.
  unfold slice, clampIndex.
  destruct (Z.ltb_spec (Z.of_nat n) 0); [lia|].
  rewrite Nat2Z.id.
  destruct (Nat.le_ge_cases n (length s)) as [L|G].
  - rewrite Nat.min_l by assumption.
    apply firstn_all2. rewrite length_skipn. lia.
  - rewrite Nat.min_r by assumption. rewrite Nat.sub_diag.
    now rewrite !skipn_all2.
Qed.







(** A step that finds no boundary in the buffer yields nothing. *)
Lemma readStep_no_boundary (boundary buffer textChunk : text) :
  indexOf (buffer ++ textChunk) boundary = -1 ->
  readStep boundary buffer textChunk = (None, buffer ++ textChunk).
Proof. unfold readStep. now intros ->. Qed.






End Framing.



(** Scenario S5, framing: two chunks, the boundary of the first part in
    the first chunk, the closing boundary in the second. *)
Example two_chunks_two_batches :
  readFrom (t "--graphql") []
    [t "--graphql Content-Type: application/json" ++ HEADER_SEPARATOR
     ++ t "{initial} --graphql ";
     t " Content-Type: application/json" ++ HEADER_SEPARATOR
     ++ t "{deferred} --graphql--"]
  = [[t "{initial}"]; [t "{deferred}"]].
Proof. reflexivity. Qed.

(** A part body whose closing boundary has not arrived is not yielded,
    and is dropped when the chunks end. *)
Example unterminated_part_dropped :
  readFrom (t "--graphql") []
    [t "--graphql Content-Type: application/json" ++ HEADER_SEPARATOR
     ++ t "{initial}"]
  = [].
Proof. reflexivity. Qed.

(** ** The end of a stream *)

Section StreamEnd.
Context {host : Host}.

Lemma mapOutcome_last {A B : Type} (f : A -> Outcome B) (l : list A)
  (bs : list B) (b : B) :
  mapOutcome f l = Return bs ->
  last (map Some bs) None = Some b ->
  exists a, last (map Some l) None = Some a /\ f a = Return b.
Proof.
  revert bs; induction l as [|a l IH]; intros bs.
  - intros [= <-]. discriminate.
  - intros H. apply mapOutcome_cons in H as (b0 & bs' & -> & Hb0 & Hrest).
    destruct bs' as [|b1 bs'].
    + destruct l as [|a1 l].
      * intros [= <-]. exists a. auto.
      * apply mapOutcome_length in Hrest. discriminate.
    + intros Hlast.
      destruct (IH (b1 :: bs') Hrest Hlast) as (a' & Ha' & Hf).
      exists a'. split; [|exact Hf].
      destruct l as [|a1 l]; [discriminate|exact Ha'].
Qed.

(** A batch that yields: the snapshot has no [errors], and the [hasNext]
    it leaves is that of the last payload of the batch. *)
Lemma processBatch_yields (st st' : StreamState) (chunkBodies : list text)
  (snapshot : ClientStreamResponseIteratorObject) :
  processBatch st chunkBodies = (st', Yields snapshot) ->
  errors (fields snapshot) = None
  /\ hasNext snapshot = streamHasNext st'
  /\ exists body,
       last (map Some chunkBodies) None = Some body
       /\ streamHasNext st' = hasNextOfBody body.
Proof.
  unfold processBatch.
  destruct (mapOutcome parsePayload chunkBodies) as [payloads|] eqn:Hp;
    [|discriminate].
  destruct (mapOutcome toDatum payloads) as [dataArray|] eqn:Hd;
    [|discriminate].
  destruct (filterOutcome _ _); [|discriminate].
  destruct (last (map Some dataArray) None) as [lastDatum|] eqn:Hl;
    [|discriminate].
  destruct (0 <? length _)%nat; [discriminate|].
  destruct (keyCount _ =? 0)%nat; [discriminate|].
  intros [= <- <-]. simpl. split; [reflexivity|]. split; [reflexivity|].
  destruct (mapOutcome_last _ _ Hd Hl) as (payload & Hpl & Hdatum).
  destruct (mapOutcome_last _ _ Hp Hpl) as (body & Hbody & Hparse).
  exists body. split; [exact Hbody|].
  rewrite (toDatum_hasNext _ Hdatum). unfold hasNextOfBody.
  unfold parsePayload in Hparse.
  destruct (JSON_parse body); [|discriminate]. now injection Hparse as ->.
Qed.

Lemma last_cons_cons {A : Type} (a b : A) (l : list A) (d : option A) :
  last (map Some (a :: b :: l)) d = last (map Some (b :: l)) d.
Proof. reflexivity. Qed.

(** A loop of the merger that no batch stopped. *)
Lemma mergeFrom_finished (st0 st : StreamState) (batches : list (list text))
  (snapshots : list ClientStreamResponseIteratorObject) :
  mergeFrom st0 batches = (snapshots, st, None) ->
  Forall (fun snapshot => errors (fields snapshot) = None) snapshots
  /\ length snapshots = length batches
  /\ streamHasNext st
     = match batches with
       | [] => streamHasNext st0
       | _ :: _ => lastHasNext batches
       end.
Proof.
  revert st0 snapshots; induction batches as [|b rest IH];
    intros st0 snapshots; simpl.
  - intros [= <- <-]. repeat split. constructor.
  - destruct (processBatch st0 b) as [st1 [snapshot|e]] eqn:Hb;
      [|discriminate].
    destruct (mergeFrom st1 rest) as [[ys st2] e] eqn:Hrest.
    intros [= <- <- ->].
    destruct (IH _ _ Hrest) as (Hall & Hlen & Hnext).
    destruct (processBatch_yields _ _ Hb) as (Herr & _ & body & Hbody & Hst1).
    split; [now constructor|]. split; [simpl; now rewrite Hlen|].
    rewrite Hnext. destruct rest as [|b' rest'].
    + unfold lastHasNext. simpl. now rewrite Hbody.
    + unfold lastHasNext. now rewrite last_cons_cons.
Qed.

(** C3, as the code has it. For every multipart stream whose batches
    the merger processes to the end of the parser's iterator (no batch
    stops the loop, the parser does not throw): the snapshots yielded in
    the loop carry no [errors]; after them the stream yields one final
    snapshot, with the label-prefixed message [Response stream terminated
    unexpectedly], the status of the response, [hasNext: false] and the
    data and extensions accumulated so far, exactly when the [hasNext]
    last seen (that of the last processed payload, initially [true]) is
    truthy; when it is not, the stream ends after the snapshots of the
    loop, without any error snapshot. *)
Theorem stream_end_snapshot (status : Z) (parsed : Consumed (list text))
  (snapshots : list ClientStreamResponseIteratorObject) (st : StreamState) :
  mergeFrom initialState (yielded parsed) = (snapshots, st, None) ->
  thrown parsed = None ->
  streamHasNext st = lastHasNext (yielded parsed)
  /\ Forall (fun snapshot => errors (fields snapshot) = None) snapshots
  /\ thrown (iteratorResponse status parsed) = None
  /\ (truthy (lastHasNext (yielded parsed)) = true ->
      yielded (iteratorResponse status parsed)
      = snapshots
        ++ [{| fields :=
                 {| data := getKeyValueIfValid (combinedData st);
                    extensions := getKeyValueIfValid (responseExtensions st);
                    errors :=
                      Some {| networkStatusCode := Some status;
                              message :=
                                Some "GraphQL Client: Response stream terminated unexpectedly";
                              graphQLErrors := None;
                              response := None |} |};
               hasNext := VBool false |}])
  /\ (truthy (lastHasNext (yielded parsed)) = false ->
      yielded (iteratorResponse status parsed) = snapshots).
Proof.
  intros Hloop Hparser.
  destruct (mergeFrom_finished _ _ Hloop) as (Hall & _ & Hnext).
  assert (Hlast : streamHasNext st = lastHasNext (yielded parsed)).
  { rewrite Hnext. now destruct (yielded parsed). }
  split; [exact Hlast|]. split; [exact Hall|].
  unfold iteratorResponse. rewrite Hloop, Hparser. simpl.
  split; [reflexivity|]. rewrite Hlast.
  split; intros ->; [reflexivity|apply app_nil_r].
Qed.

End StreamEnd.

(** The theorem at the stream of scenario S7: the partial data comes with
    the error. *)
Lemma stream_end_snapshot_witness :
  map (fun snapshot => (data (fields snapshot), hasNext snapshot))
    (yielded (iteratorResponse (host := Example.host) 200 Example.prematureEnd))
  = [(Some Example.shopId, VBool true); (Some Example.shopId, VBool false)].
Proof.
  destruct (stream_end_snapshot (host := Example.host) 200 Example.prematureEnd
              eq_refl eq_refl) as (_ & _ & _ & H & _).
  rewrite (H eq_refl). reflexivity.
Defined.

(** C3 as the specification words it fails: the only payload of the
    stream has [hasNext: false] and carries GraphQL errors; the stream
    still ends with an error snapshot. *)
Lemma last_payload_with_errors_fails :
  exists snapshot : ClientStreamResponseIteratorObject,
    yielded (iteratorResponse (host := Example.host) 200
               {| yielded := [[t "{errors}"]]; thrown := None |})
    = [snapshot]
    /\ lastHasNext (host := Example.host) [[t "{errors}"]] = VBool false
    /\ hasNext snapshot = VBool false
    /\ errors (fields snapshot)
       = Some {| networkStatusCode := Some 200;
                 message :=
                   Some "GraphQL Client: An error occurred while fetching from the API. Review 'graphQLErrors' for details.";
                 graphQLErrors := Some (VArr [VStr "GQL error"]);
                 response := None |}.
Proof. eexists. repeat split; reflexivity. Qed.

(** Scenario S5, merged: two batches, the second with [hasNext: false]:
    two snapshots, no error snapshot. *)
Example complete_stream :
  map (fun snapshot =>
         (data (fields snapshot), extensions (fields snapshot),
          errors (fields snapshot), hasNext snapshot))
    (yielded (iteratorResponse (host := Example.host) 200
                {| yielded := [[t "{initial}"]; [t "{deferred}"]];
                   thrown := None |}))
  = [(Some Example.shopId, Some (Example.context "EN"), None, VBool true);
     (Some (VObj [("shop",
                   VObj [("id", VStr "gid://shopify/Shop/1");
                         ("name", VStr "Shop 1");
                         ("description", VStr "Test shop description")])]),
      Some (Example.context "EN"), None, VBool false)].
Proof. reflexivity. Qed.

(** A stream that ends before any part is complete: the error snapshot
    has no data. *)
Example no_part_at_all :
  map (fun snapshot =>
         (data (fields snapshot), errors (fields snapshot), hasNext snapshot))
    (yielded (iteratorResponse (host := Example.host) 200
                {| yielded := []; thrown := None |}))
  = [(None,
      Some {| networkStatusCode := Some 200;
              message :=
                Some "GraphQL Client: Response stream terminated unexpectedly";
              graphQLErrors := None;
              response := None |},
      VBool false)].
Proof. reflexivity. Qed.

(** Scenario S5, end to end: a client, a transport that answers with a
    multipart body in two chunks, and [requestStream]. *)
Example streamed_request :
  exists (client : GraphQLClient)
         (stream : Consumed ClientStreamResponseIteratorObject)
         (w : World),
    createGraphQLClient (host := Example.host)
      (Example.clientOptions (Example.always Example.multipartResponse) None)
    = Return client
    /\ requestStream client Example.deferOperation noOptions emptyWorld
       = (Return stream, w)
    /\ length (calls w) = 1%nat
    /\ map (fun snapshot => (errors (fields snapshot), hasNext snapshot))
         (yielded stream)
       = [(None, VBool true); (None, VBool false)]
    /\ thrown stream = None.
Proof. eexists; eexists; eexists. repeat split; reflexivity. Qed.

End Properties.

(** * Further properties of the client *)

Module More.
Import JS Value Types Constants Utilities HttpFetch Client Notions Properties.
Import MoreNotions.

(** ** What [fetch] sends *)

Lemma entryOf_setHeader_same (k : string) (x : HeaderValue) (h : Headers) :
  entryOf k (setHeader k x h) = Some x.
Proof.
  induction h as [|[k' v] h IH]; simpl.
  - now rewrite String.eqb_refl.
  - destruct (String.eqb k k') eqn:E; simpl; rewrite E; [reflexivity|exact IH].
Qed.

Lemma entryOf_setHeader_other (k k' : string) (x : HeaderValue) (h : Headers) :
  k <> k' -> entryOf k' (setHeader k x h) = entryOf k' h.
Proof.
  intros Hne. induction h as [|[k0 v] h IH]; simpl.
  - destruct (String.eqb_spec k' k); [congruence|reflexivity].
  - destruct (String.eqb_spec k k0) as [->|Hk]; simpl.
    + destruct (String.eqb_spec k' k0); [congruence|reflexivity].
    + destruct (String.eqb k' k0); [reflexivity|exact IH].
Qed.

Lemma entryOf_app {A : Type} (k : string) (l l' : list (string * A)) :
  entryOf k (l ++ l')
  = match entryOf k l with
    | Some v => Some v
    | None => entryOf k l'
    end.
Proof.
  induction l as [|[k' v] l IH]; simpl; [reflexivity|].
  destruct (String.eqb k k'); [reflexivity|exact IH].
Qed.

Lemma entryOf_spread (k : string) (o h : Headers) :
  entryOf k (fold_left (fun acc kv => setHeader (fst kv) (snd kv) acc) o h)
  = match entryOf k (rev o) with
    | Some v => Some v
    | None => entryOf k h
    end.
Proof.
  revert h; induction o as [|[k1 v1] o IH]; intros h; simpl; [reflexivity|].
  rewrite IH, entryOf_app. destruct (entryOf k (rev o)); [reflexivity|].
  simpl. destruct (String.eqb_spec k k1) as [->|Hne].
  - apply entryOf_setHeader_same.
  - apply entryOf_setHeader_other. congruence.
Qed.

Lemma entryOf_flat (k : string) (h : Headers) :
  entryOf k (map (fun kv => (fst kv, flattenHeader (snd kv))) h)
  = option_map flattenHeader (entryOf k h).
Proof.
  induction h as [|[k' v] h IH]; simpl; [reflexivity|].
  destruct (String.eqb k k'); [reflexivity|exact IH].
Qed.

Lemma validateRetries_option (cfg : ClientConfig) (options : RequestOptions) :
  (forall n, req_retries options = Some n -> 0 <= n <= 3) ->
  validateRetries CLIENT (req_retries options) = Return tt.
Proof.
  intros H. destruct (req_retries options) as [n|]; [|reflexivity].
  apply validateRetries_valid. now apply H.
Qed.

Lemma spread_sent (cfg : ClientConfig) (options : RequestOptions)
  (k : string) :
  entryOf k
    (map (fun kv => (fst kv, flattenHeader (snd kv)))
       (spreadHeaders (cfg_headers cfg) (req_headers options)))
  = headerSent cfg options k.
Proof.
  rewrite entryOf_flat. unfold headerSent, overrideOf, spreadHeaders.
  destruct (req_headers options) as [o|]; [|reflexivity].
  now rewrite entryOf_spread.
Qed.

(** X1. When the [retries] option of a call is valid or omitted, [fetch]
    hands the executor one set of request parameters, attempt 1 and the
    effective retries; the parameters are the per-call URL, else the
    client's, the method POST, the operation and the variables as body,
    and under every header name the per-call value, else the client's,
    with a list of values joined by a comma and a space. *)
Theorem fetch_request_parameters (cfg : ClientConfig) (operation : string)
  (options : RequestOptions) :
  (forall n, req_retries options = Some n -> 0 <= n <= 3) ->
  exists params : RequestParams,
    sentBy cfg operation options params
    /\ forall (httpFetch : RequestParams -> Z -> Z -> Async Response)
              (w : World),
         generateFetch httpFetch cfg operation options w
         = httpFetch params 1 (effectiveRetries cfg options) w.
Proof.
  intros Hvalid. eexists. split.
  2:{ intros httpFetch w. unfold generateFetch.
      rewrite (validateRetries_option cfg options Hvalid). reflexivity. }
  unfold sentBy. simpl. repeat split. intros k. apply spread_sent.
Qed.

(** The theorem at a call that overrides the URL and one header. *)
Lemma fetch_request_parameters_witness :
  exists params : RequestParams,
    fst params = "http://localhost/other"
    /\ entryOf "Content-Type" (init_headers (snd params))
       = Some "application/graphql"
    /\ entryOf "X-Tags" (init_headers (snd params)) = Some "a, b"
    /\ entryOf "Accept" (init_headers (snd params)) = None.
Proof.
  destruct (fetch_request_parameters headedConfig Example.deferOperation
              headedOptions ltac:(intros n H; discriminate H))
    as (params & (Hurl & _ & _ & Hheaders) & _).
  exists params. rewrite Hurl, !Hheaders. repeat split; reflexivity.
Defined.

Section Alike.
Context {host : Host}.

Lemma generateFetch_calls_alike (api : CustomFetchApi) (logger : bool)
  (cfg : ClientConfig) (operation : string) (options : RequestOptions)
  (w : World) :
  exists extra : list RequestParams,
    calls (snd (generateFetch (httpFetch api logger) cfg operation options w))
    = calls w ++ extra
    /\ Forall (sentBy cfg operation options) extra
    /\ forall p q, In p extra -> In q extra -> p = q.
Proof.
  unfold generateFetch.
  destruct (validateRetries CLIENT (req_retries options)) as [[]|e].
  - match goal with
    | |- context [httpFetch api logger ?p 1 ?n w] =>
        destruct (httpFetch_calls api logger p 1 n w)
          as (extra & -> & _ & _ & Hall)
    end.
    exists extra. split; [reflexivity|]. rewrite Forall_forall in Hall. split.
    + apply Forall_forall. intros p Hp. rewrite <- (Hall p Hp).
      unfold sentBy. simpl. repeat split. intros k. apply spread_sent.
    + intros p q Hp Hq. now rewrite <- (Hall p Hp), <- (Hall q Hq).
  - exists []. simpl. rewrite app_nil_r. repeat split; [constructor|].
    intros p q [].
Qed.

(** X2. Every HTTP request that one call of [fetch], [request] or
    [requestStream] issues, the first attempt and the retries alike, has
    the same parameters: the URL, method, body and headers of the call.
    The calls made before are kept as they were. *)
Theorem requests_of_a_call_alike (options : ClientOptions)
  (client : GraphQLClient) (operation : string) (reqOptions : RequestOptions)
  (w : World) :
  createGraphQLClient options = Return client ->
  forall w' : World,
    w' = snd (fetch client operation reqOptions w)
    \/ w' = snd (request client operation reqOptions w)
    \/ w' = snd (requestStream client operation reqOptions w) ->
    exists extra : list RequestParams,
      calls w' = calls w ++ extra
      /\ Forall (sentBy (config client) operation reqOptions) extra
      /\ forall p q, In p extra -> In q extra -> p = q.
Proof.
  intros Hclient w' Hw'.
  destruct (createGraphQLClient_inv _ Hclient)
    as (api & _ & Hfetch & Hrequest & Hstream).
  pose proof (generateFetch_calls_alike api (opt_logger options)
                (config client) operation reqOptions w) as Hcalls.
  rewrite <- Hfetch in Hcalls.
  assert (Hnone : exists extra : list RequestParams,
             calls w = calls w ++ extra
             /\ Forall (sentBy (config client) operation reqOptions) extra
             /\ forall p q, In p extra -> In q extra -> p = q).
  { exists []. rewrite app_nil_r. repeat split; [constructor|].
    intros p q []. }
  destruct Hw' as [-> | [-> | ->]].
  - exact Hcalls.
  - rewrite Hrequest.
    destruct (generateRequest_world (fetch client) operation reqOptions w)
      as [-> | ->]; assumption.
  - rewrite Hstream.
    destruct (generateRequestStream_world (fetch client) operation
                reqOptions w) as [-> | ->]; assumption.
Qed.

End Alike.

(** The theorem at a client whose transport always aborts: the requests
    of a call with two retries are the same. *)
Lemma requests_of_a_call_alike_witness :
  exists client : GraphQLClient,
    createGraphQLClient (host := Example.host)
      (Example.clientOptions Example.aborted None) = Return client
    /\ length (calls (snd (fetch client Example.plainOperation
                             (Example.withRetries 2) emptyWorld))) = 3%nat
    /\ forall p q,
         In p (calls (snd (fetch client Example.plainOperation
                             (Example.withRetries 2) emptyWorld))) ->
         In q (calls (snd (fetch client Example.plainOperation
                             (Example.withRetries 2) emptyWorld))) ->
         p = q.
Proof.
  eexists. split; [reflexivity|]. split; [reflexivity|].
  destruct (requests_of_a_call_alike (host := Example.host)
              (Example.clientOptions Example.aborted None)
              Example.plainOperation (Example.withRetries 2) emptyWorld
              eq_refl (or_introl eq_refl)) as (extra & Hcalls & _ & Hsame).
  rewrite Hcalls. exact Hsame.
Defined.

(** ** When [request] rejects *)

Section Rejections.
Context {host : Host}.

Lemma processJSONResponse_throws (r : Response) (e : Error) :
  processJSONResponse r = Throw e <->
  json r = Throw e
  \/ exists payload,
       json r = Return payload
       /\ destructurable payload = false
       /\ e = mkError typeErrorMessage.
Proof.
  unfold processJSONResponse. destruct (json r) as [payload|e0].
  - destruct (destructurable payload) eqn:D; simpl; split.
    + discriminate.
    + intros [H | (p & [= <-] & Hp & _)]; congruence.
    + intros [= <-]. right. now exists payload.
    + intros [H | (p & _ & _ & ->)]; [discriminate|reflexivity].
  - split.
    + intros [= ->]. now left.
    + intros [[= ->] | (p & H & _)]; [reflexivity|discriminate].
Qed.

(** X3. For an operation without [@defer], [request] rejects in one case
    only, its [catch] notwithstanding: [fetch] returned an ok response
    whose content type includes [application/json], and reading the body
    as JSON failed or gave [null]. The error is then that of the reading,
    and the world is as [fetch] left it. A failure of [fetch] itself never
    makes [request] reject. *)
Theorem request_rejects_only_on_unread_body
  (fetch : string -> RequestOptions -> Async Response)
  (operation : string) (options : RequestOptions) (w w' : World) (e : Error) :
  DEFER_OPERATION_REGEX_test operation = false ->
  (generateRequest fetch operation options w = (Throw e, w') <->
   exists r : Response,
     fetch operation options w = (Return r, w')
     /\ ok r = true
     /\ includes (contentTypeOf r) "application/json" = true
     /\ (json r = Throw e
         \/ exists payload,
              json r = Return payload
              /\ destructurable payload = false
              /\ e = mkError typeErrorMessage)).
Proof.
  intros Hdefer. unfold generateRequest, CONTENT_TYPES_json. rewrite Hdefer.
  destruct (fetch operation options w) as [[r|e0] w0].
  - destruct (ok r) eqn:Hok; simpl.
    + destruct (includes (contentTypeOf r) "application/json") eqn:Hct; simpl.
      * split.
        -- intros [= Hp <-]. exists r. repeat split; try assumption.
           now apply processJSONResponse_throws.
        -- intros (r' & [= <- <-] & _ & _ & Hp).
           apply processJSONResponse_throws in Hp. now rewrite Hp.
      * split; [discriminate|].
        intros (r' & [= <- <-] & _ & Hct' & _). congruence.
    + split; [discriminate|].
      intros (r' & [= <- <-] & Hok' & _). congruence.
  - split; [discriminate|]. intros (r' & H & _). discriminate.
Qed.

(** X4. An ok response of content type [application/json] is treated the
    same by the two entry points: what [request] returns for it is what
    the one snapshot of the stream of [requestStream] carries, with
    [hasNext: false]; and when [request] rejects, the stream throws the
    same error at its first step, having yielded nothing. *)
Theorem json_response_same_for_both
  (fetch : string -> RequestOptions -> Async Response)
  (plain deferred : string) (options options' : RequestOptions)
  (w w1 w2 : World) (r : Response) :
  DEFER_OPERATION_REGEX_test plain = false ->
  DEFER_OPERATION_REGEX_test deferred = true ->
  fetch plain options w = (Return r, w1) ->
  fetch deferred options' w = (Return r, w2) ->
  ok r = true ->
  includes (contentTypeOf r) "application/json" = true ->
  match fst (generateRequest fetch plain options w) with
  | Return result =>
      generateRequestStream fetch deferred options' w
      = (Return {| yielded := [{| fields := result; hasNext := VBool false |}];
                   thrown := None |}, w2)
  | Throw e =>
      generateRequestStream fetch deferred options' w
      = (Return {| yielded := []; thrown := Some e |}, w2)
  end.
Proof.
  intros Hplain Hdeferred Hf1 Hf2 Hok Hct.
  unfold generateRequest, generateRequestStream, CONTENT_TYPES,
    CONTENT_TYPES_json.
  rewrite Hplain, Hdeferred, Hf1, Hf2, Hok. simpl. rewrite Hct. simpl.
  unfold jsonStream. destruct (processJSONResponse r); reflexivity.
Qed.

End Rejections.

(** The theorem at a body that is not JSON. *)
Lemma request_rejects_only_on_unread_body_witness :
  generateRequest (host := Example.host)
    (Example.answering (Example.jsonResponse 200 "OK" true "<html>"))
    Example.plainOperation noOptions emptyWorld
  = (Throw (mkError "Unexpected token"), emptyWorld).
Proof.
  apply (request_rejects_only_on_unread_body (host := Example.host)
           (Example.answering (Example.jsonResponse 200 "OK" true "<html>"))
           Example.plainOperation noOptions emptyWorld emptyWorld
           (mkError "Unexpected token") eq_refl).
  eexists. split; [reflexivity|]. split; [reflexivity|].
  split; [reflexivity|]. left. reflexivity.
Defined.

(** The theorem at a response whose payload is [{data: {}}]: the stream
    has one snapshot, without data and without errors. *)
Lemma json_response_same_for_both_witness :
  generateRequestStream (host := Example.host)
    (Example.answering (Example.jsonResponse 200 "OK" true "{data:{}}"))
    Example.deferOperation noOptions emptyWorld
  = (Return {| yielded :=
                 [{| fields := {| data := None; extensions := None;
                                  errors := None |};
                     hasNext := VBool false |}];
               thrown := None |}, emptyWorld).
Proof.
  exact (json_response_same_for_both (host := Example.host)
           (Example.answering (Example.jsonResponse 200 "OK" true "{data:{}}"))
           Example.plainOperation Example.deferOperation noOptions noOptions
           emptyWorld eq_refl eq_refl eq_refl eq_refl eq_refl eq_refl).
Defined.

(** ** The shape of a stream *)

Section Shape.
Context {host : Host}.

(** The snapshots of the merger's loop: none carries errors; the last
    one reports the [hasNext] the loop ends with; without a snapshot the
    accumulator is the one the loop started with. *)
Lemma mergeFrom_shape (st st' : StreamState) (batches : list (list text))
  (ys : list ClientStreamResponseIteratorObject) (e : option Error) :
  mergeFrom st batches = (ys, st', e) ->
  Forall (fun snapshot => errors (fields snapshot) = None) ys
  /\ (e = None ->
      (ys = [] /\ st' = st)
      \/ exists init last,
           ys = init ++ [last] /\ hasNext last = streamHasNext st').
Proof.
  revert st ys; induction batches as [|b rest IH]; intros st ys; simpl.
  - intros [= <- <- <-]. split; [constructor|]. intros _. now left.
  - destruct (processBatch st b) as [st1 [snapshot|e1]] eqn:Hb.
    + destruct (mergeFrom st1 rest) as [[ys' st2] e'] eqn:Hrest.
      intros [= <- <- <-].
      destruct (IH _ _ Hrest) as (Hall & Hlast).
      destruct (processBatch_yields _ _ Hb) as (Herr & Hnext & _).
      split; [now constructor|]. intros He. right.
      destruct (Hlast He) as [[-> ->] | (init & last & -> & Hl)].
      * exists [], snapshot. split; [reflexivity|exact Hnext].
      * exists (snapshot :: init), last. split; [reflexivity|exact Hl].
    + intros [= <- <- <-]. split; [constructor|]. discriminate.
Qed.

Lemma iteratorResponse_endsWell (status : Z) (parsed : Consumed (list text)) :
  thrown (iteratorResponse status parsed) = None
  /\ endsWell (yielded (iteratorResponse status parsed)).
Proof.
  unfold iteratorResponse.
  destruct (mergeFrom initialState (yielded parsed)) as [[ys st] e] eqn:Hm.
  simpl. split; [reflexivity|].
  destruct (mergeFrom_shape _ _ Hm) as (Hall & Hlast).
  destruct (streamFailure e (thrown parsed) st) as [error|] eqn:Hf.
  - exists ys, (errorSnapshot status st error). repeat split. exact Hall.
  - unfold streamFailure in Hf. destruct e; [discriminate|].
    destruct (thrown parsed); [discriminate|].
    destruct (truthy (streamHasNext st)) eqn:Ht; [discriminate|].
    destruct (Hlast eq_refl) as [[-> ->] | (init & last & -> & Hl)].
    + discriminate Ht.
    + rewrite app_nil_r. exists init, last.
      split; [reflexivity|].
      split; [now apply Forall_app in Hall|now rewrite Hl].
Qed.

Lemma failedStream_endsWell (error : Error) :
  thrown (failedStream error) = None /\ endsWell (yielded (failedStream error)).
Proof.
  split; [reflexivity|]. eexists [], _. repeat split. constructor.
Qed.

(** X5. For an operation with [@defer], [requestStream] never rejects:
    whatever [fetch] does, it returns a stream. Consumed, the stream
    yields at least one snapshot, only the last snapshot may carry errors,
    and the last snapshot has a [hasNext] that is not truthy; the one
    exception is an ok JSON response whose body cannot be read, for which
    the stream throws at its first step, having yielded nothing. *)
Theorem stream_always_ends_well
  (fetch : string -> RequestOptions -> Async Response)
  (operation : string) (options : RequestOptions) (w : World) :
  DEFER_OPERATION_REGEX_test operation = true ->
  exists stream : Consumed ClientStreamResponseIteratorObject,
    generateRequestStream fetch operation options w
    = (Return stream, snd (fetch operation options w))
    /\ ((thrown stream = None /\ endsWell (yielded stream))
        \/ (yielded stream = []
            /\ exists (r : Response) (e : Error),
                 fst (fetch operation options w) = Return r
                 /\ ok r = true
                 /\ includes (contentTypeOf r) "application/json" = true
                 /\ processJSONResponse r = Throw e
                 /\ thrown stream = Some e)).
Proof.
  intros Hdefer. unfold generateRequestStream. rewrite Hdefer. cbn [negb].
  destruct (fetch operation options w) as [[r|e] w']; cbn [fst snd].
  2:{ eexists. split; [reflexivity|]. left. apply failedStream_endsWell. }
  destruct (ok r) eqn:Hok; cbn [negb].
  2:{ eexists. split; [reflexivity|]. left. apply failedStream_endsWell. }
  destruct (forallb _ CONTENT_TYPES).
  { eexists. split; [reflexivity|]. left. apply failedStream_endsWell. }
  unfold CONTENT_TYPES_json.
  destruct (includes (contentTypeOf r) "application/json") eqn:Hct.
  - eexists. split; [reflexivity|]. unfold jsonStream.
    destruct (processJSONResponse r) as [result|e] eqn:Hp; simpl.
    + left. split; [reflexivity|]. eexists [], _. repeat split. constructor.
    + right. split; [reflexivity|]. exists r, e. repeat split; assumption.
  - destruct (body r); eexists; (split; [reflexivity|]); left;
      first [apply failedStream_endsWell | apply iteratorResponse_endsWell].
Qed.



(** X7. When no batch fails, the merger yields one snapshot for each
    batch, in the order of the batches; each of them carries no errors
    and reports as [hasNext] that of the last payload of its batch. *)
Theorem one_snapshot_per_batch (st0 st : StreamState)
  (batches : list (list text))
  (snapshots : list ClientStreamResponseIteratorObject) :
  mergeFrom st0 batches = (snapshots, st, None) ->
  Forall2
    (fun snapshot chunkBodies =>
       errors (fields snapshot) = None
       /\ hasNext snapshot = batchHasNext chunkBodies)
    snapshots batches.
Proof.
  revert st0 snapshots; induction batches as [|b rest IH];
    intros st0 snapshots; simpl.
  - intros [= <- <-]. constructor.
  - destruct (processBatch st0 b) as [st1 [snapshot|e]] eqn:Hb;
      [|discriminate].
    destruct (mergeFrom st1 rest) as [[ys st2] e] eqn:Hrest.
    intros [= <- <- ->]. constructor; [|eapply IH, Hrest].
    destruct (processBatch_yields _ _ Hb)
      as (Herr & Hnext & body & Hbody & Hst1).
    split; [exact Herr|]. rewrite Hnext, Hst1.
    unfold batchHasNext, lastHasNext. simpl. now rewrite Hbody.
Qed.

End Shape.

(** A transport-free [fetch] that fails. *)
Lemma stream_always_ends_well_witness :
  exists stream : Consumed ClientStreamResponseIteratorObject,
    generateRequestStream (host := Example.host)
      (fun _ _ w => (Throw (mkError "Failed to fetch"), w))
      Example.deferOperation noOptions emptyWorld
    = (Return stream, emptyWorld)
    /\ thrown stream = None
    /\ endsWell (yielded stream).
Proof.
  destruct (stream_always_ends_well (host := Example.host)
              (fun _ _ w => (Throw (mkError "Failed to fetch"), w))
              Example.deferOperation noOptions emptyWorld eq_refl)
    as (stream & Hrun & [[Hthrown Hends] | (_ & r & e & Hr & _)]).
  - exists stream. auto.
  - discriminate Hr.
Defined.


(** The theorem at the two batches of scenario S5. *)
Lemma one_snapshot_per_batch_witness :
  Forall2
    (fun snapshot chunkBodies =>
       errors (fields snapshot) = None
       /\ hasNext snapshot = batchHasNext (host := Example.host) chunkBodies)
    (fst (fst (mergeFrom (host := Example.host) initialState
                 [[t "{initial}"]; [t "{deferred}"]])))
    [[t "{initial}"]; [t "{deferred}"]].
Proof.
  apply (one_snapshot_per_batch (host := Example.host))
    with (st0 := initialState)
         (st := snd (fst (mergeFrom (host := Example.host) initialState
                            [[t "{initial}"]; [t "{deferred}"]]))).
  vm_compute. reflexivity.
Defined.

(** ** GraphQL errors in a batch *)

Section BatchErrors.
Context {host : Host}.

Lemma mapOutcome_throw {A B : Type} (f : A -> Outcome B) (l : list A)
  (e : Error) :
  mapOutcome f l = Throw e -> exists a, In a l /\ f a = Throw e.
Proof.
  induction l as [|a l IH]; simpl; [discriminate|].
  destruct (f a) as [b|e0] eqn:Ha.
  - destruct (mapOutcome f l) as [bs|e1]; [discriminate|].
    intros [= <-]. destruct (IH eq_refl) as (a' & Hin & Hf).
    exists a'. split; [now right | assumption].
  - intros [= <-]. exists a. split; [now left | assumption].
Qed.

Lemma mapOutcome_In {A B : Type} (f : A -> Outcome B) (l : list A)
  (bs : list B) (b : B) :
  mapOutcome f l = Return bs -> In b bs ->
  exists a, In a l /\ f a = Return b.
Proof.
  revert bs; induction l as [|a l IH]; intros bs.
  - intros [= <-] [].
  - intros H. apply mapOutcome_cons in H as (b0 & bs' & -> & Hb0 & Hrest).
    intros [<- | Hin].
    + exists a. split; [now left | assumption].
    + destruct (IH _ Hrest Hin) as (a' & Ha' & Hf). exists a'.
      split; [now right | assumption].
Qed.

Lemma parsePayload_cause (v : text) (e : Error) :
  parsePayload v = Throw e -> error_cause e = NoCause.
Proof.
  unfold parsePayload. destruct (JSON_parse v); [discriminate|].
  now intros [= <-].
Qed.

Lemma toDatum_cause (payload : value) (e : Error) :
  toDatum payload = Throw e -> error_cause e = NoCause.
Proof.
  unfold toDatum. destruct (negb (destructurable payload)).
  - now intros [= <-].
  - destruct (truthy _ && truthy _); [|discriminate].
    destruct (pathOf _); [discriminate|]. now intros [= <-].
Qed.

Lemma toDatum_errors (payload : value) (datum : Datum) :
  toDatum payload = Return datum ->
  datum_errors datum = getKeyValueIfValid (get payload "errors").
Proof.
  unfold toDatum.
  destruct (negb (destructurable payload)); [discriminate|].
  destruct (truthy (get payload "data") && truthy (get payload "path")).
  - destruct (pathOf (get payload "path")); [|discriminate].
    now intros [= <-].
  - now intros [= <-].
Qed.

Lemma filterOutcome_In {A : Type} (f : A -> Outcome bool) (l kept : list A)
  (x : A) :
  filterOutcome f l = Return kept -> In x kept ->
  In x l /\ f x = Return true.
Proof.
  revert kept; induction l as [|a l IH]; intros kept; simpl.
  - intros [= <-] [].
  - destruct (f a) as [keep|] eqn:Ha; [|discriminate].
    destruct (filterOutcome f l) as [kept'|]; [|discriminate].
    intros [= <-] Hin. destruct keep.
    + destruct Hin as [<- | Hin]; [now split; [left|]|].
      destruct (IH _ eq_refl Hin). split; [now right | assumption].
    + destruct (IH _ eq_refl Hin). split; [now right | assumption].
Qed.

Lemma hasLength_cause (v : value) (e : Error) :
  hasLength v = Throw e -> error_cause e = NoCause.
Proof.
  unfold hasLength, positive. destruct (truthy v); [|discriminate].
  destruct (aboveZeroOf _); [discriminate|]. now intros [= <-].
Qed.

Lemma filterOutcome_cause (l : list value) (e : Error) :
  filterOutcome hasLength l = Throw e -> error_cause e = NoCause.
Proof.
  induction l as [|a l IH]; simpl; [discriminate|].
  destruct (hasLength a) as [keep|e0] eqn:Ha.
  - destruct (filterOutcome hasLength l); [discriminate|].
    intros [= <-]. now apply IH.
  - intros [= <-]. exact (hasLength_cause _ Ha).
Qed.

(** X8. A batch makes the stream fail with GraphQL errors only when one
    of its payloads carries an [errors] value for which
    [errors && errors.length > 0] holds: an absent, null or empty [errors]
    never does. When it fails so, the message is the GraphQL API error,
    and the data of the whole batch has been merged into the accumulator
    before the error is thrown. *)
Theorem graphql_failure_has_errors (st st' : StreamState)
  (chunkBodies : list text) (error : Error) (collected : value) :
  processBatch st chunkBodies = (st', Fails error) ->
  error_cause error = CauseGraphQLErrors collected ->
  exists (payloads : list value) (dataArray : list Datum) (payload : value),
    mapOutcome parsePayload chunkBodies = Return payloads
    /\ mapOutcome toDatum payloads = Return dataArray
    /\ In payload payloads
    /\ hasLength (get payload "errors") = Return true
    /\ get payload "errors" <> VUndefined
    /\ get payload "errors" <> VNull
    /\ get payload "errors" <> VArr []
    /\ error_message error = GQL_API_ERROR
    /\ combinedData st'
       = buildCombinedDataObject (combinedData st :: map datum_data dataArray).
Proof.
  unfold processBatch.
  destruct (mapOutcome parsePayload chunkBodies) as [payloads|e0] eqn:Hp.
  2:{ intros [= _ <-] Hc. apply mapOutcome_throw in Hp as (v & _ & Hv).
      apply parsePayload_cause in Hv. congruence. }
  destruct (mapOutcome toDatum payloads) as [dataArray|e0] eqn:Hd.
  2:{ intros [= _ <-] Hc. apply mapOutcome_throw in Hd as (v & _ & Hv).
      apply toDatum_cause in Hv. congruence. }
  destruct (filterOutcome hasLength _) as [withErrors|e0] eqn:Hfilter.
  2:{ intros [= _ <-] Hc. apply filterOutcome_cause in Hfilter.
      congruence. }
  destruct (last (map Some dataArray) None) as [lastDatum|];
    [|intros [= _ <-]; discriminate].
  destruct withErrors as [|x xs].
  { simpl. destruct (keyCount _ =? 0)%nat; [|discriminate].
    intros [= _ <-]. discriminate. }
  destruct (0 <? length (flat (x :: xs)))%nat.
  2:{ destruct (keyCount _ =? 0)%nat; [|discriminate].
      intros [= _ <-]. discriminate. }
  intros [= <- <-] _.
  destruct (filterOutcome_In _ _ x Hfilter (or_introl eq_refl))
    as [Hx Hlen].
  apply in_map_iff in Hx as (datum & <- & Hdatum).
  destruct (@mapOutcome_In _ _ _ _ _ _ Hd Hdatum) as (payload & Hpayload & Hto).
  rewrite (toDatum_errors _ Hto) in Hlen. unfold getKeyValueIfValid in Hlen.
  assert (Hhas : hasLength (get payload "errors") = Return true).
  { destruct (isValid (get payload "errors")); [exact Hlen|discriminate]. }
  exists payloads, dataArray, payload.
  repeat split; try assumption; try reflexivity.
  all: intros Heq; rewrite Heq in Hhas; discriminate Hhas.
Qed.

End BatchErrors.

(** The theorem at a batch of two payloads, the first with data, the
    second with one error. *)
Lemma graphql_failure_has_errors_witness :
  exists payload : value,
    hasLength (host := Example.host) (get payload "errors") = Return true
    /\ combinedData
         (fst (processBatch (host := Example.host) initialState
                 [t "{initial}"; t "{errors}"])) = Example.shopId.
Proof.
  destruct (graphql_failure_has_errors (host := Example.host) initialState
              [t "{initial}"; t "{errors}"]
              (collected := VArr [VStr "GQL error"])
              eq_refl eq_refl)
    as (payloads & dataArray & payload & Hp & Hd & _ & Hlen & _ & _ & _ & _
        & Hdata).
  exists payload. split; [exact Hlen|].
  injection Hp as <-. injection Hd as <-. exact Hdata.
Defined.

(** The length of [errors] is converted to a number before it is
    compared: an object whose [length] is the string 5 counts as errors,
    one whose [length] is an object that cannot be converted makes the
    comparison throw. *)
Example length_is_converted :
  hasLength (host := Example.host) (VObj [("length", VStr "5")]) = Return true
  /\ hasLength (host := Example.host) (VObj [("length", VArr [VNum 2])])
     = Return true
  /\ hasLength (host := Example.host) (VObj [("length", VStr " 0x0 ")])
     = Return false
  /\ hasLength (host := Example.host) (VObj [("length", VStr "1e-400")])
     = Return false
  /\ hasLength (host := Example.host) (VObj [("length", VArr [VNum 1; VNum 2])])
     = Return false
  /\ hasLength (host := Example.host)
       (VObj [("length", VObj [("toString", VNum 1)])])
     = Throw (mkError "Cannot convert object to primitive value").
Proof. repeat split; vm_compute; reflexivity. Qed.

(** ** The buffer of the multipart parser *)

Section Reader.

Lemma find_sub_occurs (s sep : text) (k : nat) :
  find_sub s sep = Some k -> startsWith (skipn k s) sep = true.
Proof.
  revert k; induction s as [|d s IH]; intros k; simpl.
  - destruct (startsWith [] sep) eqn:E; [|discriminate].
    now intros [= <-].
  - destruct (startsWith (d :: s) sep) eqn:E.
    + now intros [= <-].
    + destruct (find_sub s sep) as [j|]; simpl; [|discriminate].
      intros [= <-]. simpl. now apply IH.
Qed.

(** [find_last] finds an occurrence at or after every occurrence. *)
Lemma find_last_max (s sep : text) (p : nat) :
  (p <= length s)%nat ->
  startsWith (skipn p s) sep = true ->
  exists j, find_last s sep = Some j /\ (p <= j)%nat.
Proof.
  revert p; induction s as [|d s IH]; intros p Hp Hs.
  - simpl in Hp. assert (p = 0%nat) as -> by lia. simpl in *.
    rewrite Hs. exists 0%nat. split; [reflexivity|lia].
  - destruct p as [|p].
    + cbn [skipn] in Hs. cbn [find_last].
      destruct (find_last s sep) as [i|].
      * exists (S i). split; [reflexivity|lia].
      * rewrite Hs. exists 0%nat. split; [reflexivity|lia].
    + cbn [skipn] in Hs. simpl in Hp.
      destruct (IH p ltac:(lia) Hs) as (j & Hj & Hle).
      cbn [find_last]. rewrite Hj. exists (S j). split; [reflexivity|lia].
Qed.

Lemma find_sub_empty (sep : text) : sep <> [] -> find_sub [] sep = None.
Proof. destruct sep; [congruence|reflexivity]. Qed.

(** Nothing of [sep] is left after its last occurrence. *)
Lemma find_sub_after_last (s sep : text) (j : nat) :
  sep <> [] ->
  find_last s sep = Some j ->
  find_sub (skipn (j + length sep) s) sep = None.
Proof.
  intros Hsep Hj.
  destruct (find_sub (skipn (j + length sep) s) sep) as [k|] eqn:F;
    [exfalso|reflexivity].
  pose proof (find_sub_bound _ _ F) as Hb. rewrite length_skipn in Hb.
  apply find_sub_occurs in F. rewrite skipn_skipn in F.
  assert (Hlen : (1 <= length sep)%nat)
    by (destruct sep; [congruence|simpl; lia]).
  destruct (@find_last_max s sep (k + (j + length sep))%nat ltac:(lia) F)
    as (j' & Hj' & Hle).
  rewrite Hj in Hj'. injection Hj' as <-. lia.
Qed.

Lemma readStep_buffer (boundary buffer textChunk : text) :
  boundary <> [] ->
  find_sub (snd (readStep boundary buffer textChunk)) boundary = None.
Proof.
  intros Hb. unfold readStep, indexOf, lastIndexOf.
  destruct (find_sub (buffer ++ textChunk) boundary) as [i|] eqn:F; simpl.
  - destruct (find_sub_find_last _ _ F) as (j & L). rewrite L. simpl.
    destruct (Z.gtb_spec (Z.of_nat i) (-1)); [|lia]. simpl.
    rewrite <- Nat2Z.inj_add, slice_from.
    destruct (text_eqb _ _).
    + now apply find_sub_empty.
    + now apply find_sub_after_last.
  - exact F.
Qed.

(** X9. The multipart parser consumes every boundary it has received:
    whatever the chunks of the body and however they are cut, the buffer
    it keeps between two reads holds no occurrence of the (non-empty)
    boundary. *)
Theorem buffer_holds_no_boundary (boundary : text) (textChunks : list text) :
  boundary <> [] ->
  indexOf (bufferAfter boundary [] textChunks) boundary = -1.
Proof.
  intros Hb. unfold indexOf.
  enough (H : forall buffer, find_sub buffer boundary = None ->
                find_sub (bufferAfter boundary buffer textChunks) boundary
                = None)
    by now rewrite H; [|apply find_sub_empty].
  induction textChunks as [|c rest IH]; intros buffer Hbuf; simpl.
  - exact Hbuf.
  - apply IH. now apply readStep_buffer.
Qed.

Lemma startsWith_prefix (a b sep : text) :
  startsWith a sep = true -> startsWith (a ++ b) sep = true.
Proof.
  revert a; induction sep as [|c sep IH]; intros [|d a]; simpl; try easy.
  intros H; apply andb_prop in H as [-> Hs]. simpl. now apply IH.
Qed.

(** A text without [sep] has no beginning with [sep]. *)
Lemma find_sub_prefix (a b sep : text) :
  find_sub (a ++ b) sep = None -> find_sub a sep = None.
Proof.
  induction a as [|d a IH]; simpl.
  - destruct sep as [|c sep]; [|reflexivity].
    destruct b; discriminate.
  - destruct (startsWith (d :: a) sep) eqn:E.
    + apply (startsWith_prefix _ b) in E. simpl in E. now rewrite E.
    + destruct (startsWith (d :: a ++ b) sep); [discriminate|].
      destruct (find_sub (a ++ b) sep); [discriminate|].
      intros _. now rewrite IH.
Qed.

Lemma readFrom_without_boundary (boundary buffer : text)
  (textChunks : list text) :
  find_sub (buffer ++ concat textChunks) boundary = None ->
  readFrom boundary buffer textChunks = [].
Proof.
  revert buffer; induction textChunks as [|c rest IH]; intros buffer H;
    simpl; [reflexivity|].
  simpl in H. rewrite app_assoc in H.
  rewrite readStep_no_boundary.
  - now apply IH.
  - unfold indexOf. now rewrite (find_sub_prefix _ _ _ H).
Qed.

Lemma indexOf_none (s sep : text) :
  indexOf s sep = -1 <-> find_sub s sep = None.
Proof.
  unfold indexOf. destruct (find_sub s sep); simpl; split;
    try easy; lia.
Qed.

Context {host : Host}.

(** X10. A multipart body in which the boundary never occurs gives no
    batch, however it is cut into chunks, and the stream of the caller is
    then one snapshot: the error that the stream terminated unexpectedly,
    with the status of the response, no data, no extensions and
    [hasNext: false]. *)
Theorem body_without_boundary (status : Z) (source : ChunkSource)
  (boundary : text) :
  indexOf (concat (chunks source)) boundary = -1 ->
  failure source = None ->
  iteratorResponse status (readStreamChunk source boundary)
  = {| yielded :=
         [{| fields :=
               onlyErrors
                 {| networkStatusCode := Some status;
                    message :=
                      Some "GraphQL Client: Response stream terminated unexpectedly";
                    graphQLErrors := None;
                    response := None |};
             hasNext := VBool false |}];
       thrown := None |}.
Proof.
  intros Hnone Hfail. apply indexOf_none in Hnone.
  unfold iteratorResponse, readStreamChunk. cbn [yielded thrown].
  rewrite readFrom_without_boundary by exact Hnone.
  rewrite Hfail. reflexivity.
Qed.

(** X11. A failure while the body is read does not reject the stream of
    the caller. When no batch received before it fails, the snapshots of
    these batches are yielded, and then one last snapshot with the
    accumulated data and extensions, [hasNext: false], the status of the
    response and the message of the read failure after the label and
    [Error occured while processing stream payload - ]: also when the last
    batch said [hasNext: false]. *)
Theorem read_failure_surfaces (status : Z) (source : ChunkSource)
  (boundary : text) (msg : string)
  (snapshots : list ClientStreamResponseIteratorObject) (st : StreamState) :
  failure source = Some msg ->
  mergeFrom initialState (readFrom boundary [] (chunks source))
  = (snapshots, st, None) ->
  iteratorResponse status (readStreamChunk source boundary)
  = {| yielded :=
         snapshots
         ++ [snapshotOf st
               (Some {| networkStatusCode := Some status;
                        message :=
                          Some ("GraphQL Client: Error occured while processing stream payload - "
                                ++ msg)%string;
                        graphQLErrors := None;
                        response := None |})
               (VBool false)];
       thrown := None |}.
Proof.
  intros Hfail Hmerge.
  unfold iteratorResponse, readStreamChunk. cbn [yielded thrown].
  rewrite Hmerge, Hfail. reflexivity.
Qed.

End Reader.

Lemma buffer_holds_no_boundary_witness :
  indexOf
    (bufferAfter (t "--graphql") []
       [t "--graphql {initial} --gra"; t "phql {deferred} --graphql--"; t "-"])
    (t "--graphql") = -1.
Proof. apply buffer_holds_no_boundary. discriminate. Defined.

(** A body cut in two chunks, with a boundary other than the expected
    one. *)
Lemma body_without_boundary_witness :
  yielded
    (iteratorResponse (host := Example.host) 200
       (readStreamChunk
          {| chunks := [t "--other {initial}"; t " --other--"];
             failure := None |}
          (t "--graphql")))
  = [{| fields :=
          onlyErrors
            {| networkStatusCode := Some 200;
               message :=
                 Some "GraphQL Client: Response stream terminated unexpectedly";
               graphQLErrors := None;
               response := None |};
        hasNext := VBool false |}].
Proof.
  now rewrite (body_without_boundary (host := Example.host) 200
                 {| chunks := [t "--other {initial}"; t " --other--"];
                    failure := None |}
                 (t "--graphql") eq_refl eq_refl).
Defined.

(** A complete stream whose reader fails after the closing boundary. *)
Lemma read_failure_surfaces_witness :
  map (fun snapshot => hasNext snapshot)
    (yielded
       (iteratorResponse (host := Example.host) 200
          (readStreamChunk
             {| chunks := chunks (getStreamBodyIterator
                                    (host := Example.host)
                                    Example.multipartResponse);
                failure := Some "socket hang up" |}
             (t "--graphql"))))
  = [VBool true; VBool false; VBool false].
Proof.
  erewrite (read_failure_surfaces (host := Example.host) 200
              {| chunks := chunks (getStreamBodyIterator
                                     (host := Example.host)
                                     Example.multipartResponse);
                 failure := Some "socket hang up" |}
              (t "--graphql") eq_refl).
  2: vm_compute; reflexivity.
  reflexivity.
Defined.

(** ** Responses that [requestStream] refuses *)

Section Refused.
Context {host : Host}.

Lemma failedStream_response (r : Response) (msg : string) :
  failedStream {| error_message := msg; error_cause := CauseResponse r |}
  = failureReport r msg.
Proof.
  unfold failedStream, failureReport, getErrorCause, getErrorMessage,
    getKeyValueIfValid, isValid.
  simpl. now destruct (status r =? 0).
Qed.

(** X12. The responses [requestStream] refuses, for an operation with
    [@defer]: a response that is not ok, with its status text; an ok
    response whose content type includes neither [application/json] nor
    [multipart/mixed], with the unexpected-content-type message; an ok
    multipart response that has a body which can be neither read nor
    iterated, with the message that the body is not iterable. Each gives
    a stream of one snapshot with [hasNext: false], whose [errors] carry
    the message after the label and the status of the response, except a
    status of 0, which is left out; the response object is never in it.
    An ok multipart response whose body is [null] is refused as well, but
    by the [TypeError] of the engine: the one snapshot then carries the
    message of that error after the label, and no status. *)
Theorem stream_refuses_response
  (fetch : string -> RequestOptions -> Async Response)
  (operation : string) (options : RequestOptions) (w w' : World)
  (r : Response) :
  DEFER_OPERATION_REGEX_test operation = true ->
  fetch operation options w = (Return r, w') ->
  (ok r = false ->
   generateRequestStream fetch operation options w
   = (Return (failureReport r (statusText r)), w'))
  /\ (ok r = true ->
      includes (contentTypeOf r) "application/json" = false ->
      includes (contentTypeOf r) "multipart/mixed" = false ->
      generateRequestStream fetch operation options w
      = (Return (failureReport r
                   ("Response returned unexpected Content-Type: "
                    ++ contentTypeOf r)), w'))
  /\ (ok r = true ->
      includes (contentTypeOf r) "application/json" = false ->
      includes (contentTypeOf r) "multipart/mixed" = true ->
      forall content : text,
        body r = BodyOpaque content ->
        generateRequestStream fetch operation options w
        = (Return (failureReport r
                     "API multipart response did not return an iterable body"),
           w'))
  /\ (ok r = true ->
      includes (contentTypeOf r) "application/json" = false ->
      includes (contentTypeOf r) "multipart/mixed" = true ->
      body r = BodyNull ->
      generateRequestStream fetch operation options w
      = (Return
           {| yielded :=
                [{| fields :=
                      onlyErrors
                        {| networkStatusCode := None;
                           message :=
                             Some (formatErrorMessage typeErrorMessage);
                           graphQLErrors := None;
                           response := None |};
                    hasNext := VBool false |}];
              thrown := None |}, w')).
Proof.
  intros Hdefer Hfetch. unfold generateRequestStream.
  rewrite Hdefer, Hfetch. cbn [negb].
  unfold CONTENT_TYPES, CONTENT_TYPES_json, CONTENT_TYPES_multipart.
  cbn [forallb]. repeat split.
  - intros ->. cbn [negb]. now rewrite failedStream_response.
  - intros -> -> ->. cbn [negb andb]. now rewrite failedStream_response.
  - intros -> -> -> content ->. cbn [negb andb].
    now rewrite failedStream_response.
  - intros -> -> -> ->. reflexivity.
Qed.

End Refused.

(** The theorem at a response of status 0 that is not ok. *)
Lemma stream_refuses_response_witness :
  map (fun snapshot => errors (fields snapshot))
    (yielded
       (match
          fst (generateRequestStream (host := Example.host)
                 (Example.answering
                    (Example.jsonResponse 0 "Network down" false "{}"))
                 Example.deferOperation noOptions emptyWorld)
        with
        | Return stream => stream
        | Throw _ => {| yielded := []; thrown := None |}
        end))
  = [Some {| networkStatusCode := None;
             message := Some "GraphQL Client: Network down";
             graphQLErrors := None;
             response := None |}].
Proof.
  destruct (stream_refuses_response (host := Example.host)
              (Example.answering
                 (Example.jsonResponse 0 "Network down" false "{}"))
              Example.deferOperation noOptions emptyWorld
              eq_refl eq_refl) as [Hrefused _].
  now rewrite (Hrefused eq_refl).
Defined.

(** ** The body of a part *)

Section Part.

(** X13. The body the parser takes from a part: what follows the first
    header separator (CR LF CR LF) of the part, trimmed. A part without a
    header separator is not taken whole: [indexOf] gives -1, and the part
    loses its first three characters before it is trimmed. *)
Theorem part_body_after_separator (chunk : text) :
  (forall i : nat,
     find_sub chunk HEADER_SEPARATOR = Some i ->
     chunk = firstn i chunk ++ HEADER_SEPARATOR ++ skipn (i + 4) chunk
     /\ partBody chunk = trim (skipn (i + 4) chunk))
  /\ (find_sub chunk HEADER_SEPARATOR = None ->
      partBody chunk = trim (skipn 3 chunk)).
Proof.
  unfold partBody, indexOf. split.
  - intros i Hi. rewrite Hi. split.
    + exact (find_sub_app _ _ Hi).
    + simpl index_result. rewrite <- Nat2Z.inj_add.
      now rewrite slice_from.
  - intros ->. simpl index_result.
    change (-1 + Z.of_nat (length HEADER_SEPARATOR)) with (Z.of_nat 3).
    now rewrite slice_from.
Qed.

End Part.

End More.
